(** * The memoizing cache decorator of [edhrec/caching.py]

    A shallow embedding of [generate_wrapped_func] and of the five decorators
    built from it ([commander_cache], [card_detail_cache], [combo_cache],
    [average_deck_cache], [deck_cache]), followed by the properties of the
    time-bounded memoization layer.

    Modelling conventions.
    - A Python dictionary is a [gmap]; the closure-private dictionaries the
      decorators allocate live in a store addressed by locations.
    - A [datetime] is the number of microseconds since the epoch, an integer
      of [Z]; a [timedelta] is a number of microseconds.  The clock is taken
      to be far enough from [datetime.max] for [now + timedelta] not to
      overflow.
    - Argument values are drawn from a type with decidable equality that can
      be counted: the hashable values of Python, with Python's [==] read as
      equality of the model.
    - Keyword names are strings of bytes compared lexicographically; on
      UTF-8 this is the order of the code points that [str] uses.
    - The wrapped callable is a state transformer on a world [W] that either
      returns a value or raises; the world does not contain the cache.

    The second part embeds the client [EDHRec] of [medhrec.py] that these
    decorators serve: the formatting of names and lists, the cookie, the
    build identifier, the construction of addresses, the requests, and the
    getters that read the cached commander data.
    - The network is a state [Net]; [session.get] and the extraction of the
      build identifier from the home page are parameters.
    - A decoded JSON document is a value of [Py.json], with finite numbers
      as rationals; a Python dictionary with arbitrary hashable keys is the
      list of its items in insertion order.
    - [str.lower] is modelled on ASCII text, and the statements about
      formatted names carry that restriction. *)

From Stdlib Require Import ZArith String Ascii List Sorting.Sorted Sorting.Permutation.
From Stdlib Require Import Structures.OrdersEx QArith.
From stdpp Require Import base tactics option list sorting strings gmap fin_maps.

Local Open Scope Z_scope.

(** ** Order on keyword names *)

Module Names.

(** [str.__lt__]: lexicographic comparison, character by character. *)
Definition str_ltb (a b : string) : bool := String.ltb a b.

Definition str_lt (a b : string) : Prop := str_ltb a b = true.

End Names.

(** ** Key derivation: [(args, tuple(sorted(kwargs.items())))] *)

Section Key.

Context {V : Type}.

(** Python's [<] on the values of keyword arguments.  The comparison of
    two items only reaches it when their names are equal. *)
Variable value_ltb : V → V → bool.

(** The keyword arguments of a call, [kwargs.items()], are a list of
    (name, value) pairs in the order of the call site.  The names of a
    dictionary are pairwise distinct. *)
Definition is_dict (kwargs : list (string * V)) : Prop := NoDup (kwargs.*1).

(** Tuple comparison [(n1, v1) < (n2, v2)]: the first components decide
    unless they are equal. *)
Definition item_ltb (x y : string * V) : bool :=
  if String.eqb x.1 y.1 then value_ltb x.2 y.2 else Names.str_ltb x.1 y.1.

(** Items compared by their names alone. *)
Definition name_lt (x y : string * V) : Prop := Names.str_lt x.1 y.1.

(** Insertion of [x], an item that precedes those of [l] in the input,
    after the elements strictly smaller than it: the stable placement,
    using [<] only, as [list.sort] does. *)
Fixpoint insert_sorted (x : string * V) (l : list (string * V)) : list (string * V) :=
  match l with
  | [] => [x]
  | y :: l' => if item_ltb y x then y :: insert_sorted x l' else x :: y :: l'
  end.

(** [sorted(iterable)]: a stable sort into ascending order. *)
Fixpoint sorted (l : list (string * V)) : list (string * V) :=
  match l with
  | [] => []
  | x :: l' => insert_sorted x (sorted l')
  end.

(** Line 8: [cache_key = (args, tuple(sorted(kwargs.items())))]. *)
Definition cache_key (args : list V) (kwargs : list (string * V))
  : list V * list (string * V) :=
  (args, sorted kwargs).

End Key.

(** ** Cache entries, outcomes and the execution monad *)

(** [{"result": result, "expiry": expiry}] *)
Record entry (R : Type) : Type := Entry { result : R; expiry : Z }.
Arguments Entry {R} _ _.
Arguments result {R} _.
Arguments expiry {R} _.

(** A call either returns a value or raises an exception. *)
Inductive outcome (E A : Type) : Type :=
| Returned (a : A)
| Raised (e : E).
Arguments Returned {E A} _.
Arguments Raised {E A} _.

(** Computations over a mutable state [S] that may raise: what was written
    before an exception stays written. *)
Definition exec (S E A : Type) : Type := S → outcome E A * S.

Definition ret {S E A} (a : A) : exec S E A := λ s, (Returned a, s).

Definition bind {S E A B} (m : exec S E A) (k : A → exec S E B) : exec S E B :=
  λ s, match m s with
       | (Returned a, s') => k a s'
       | (Raised e, s') => (Raised e, s')
       end.

Declare Scope exec_scope.
Delimit Scope exec_scope with exec.
Notation "x <- m ;; k" := (bind m (λ x, k))
  (at level 90, m at next level, right associativity) : exec_scope.
Notation "m ;;; k" := (bind m (λ _, k))
  (at level 90, right associativity) : exec_scope.

(** The wrapped callable [function( *args, **kwargs )]: it receives the
    positional and the keyword arguments and acts on its world. *)
Definition callable (V R E W : Type) : Type :=
  list V → list (string * V) → W → outcome E R * W.

(** The dictionary [cache]: from cache keys to entries. *)
Abbreviation dict V R := (gmap (list V * list (string * V)) (entry R)).

(** [timedelta(seconds=n)], in microseconds. *)
Definition timedelta (seconds : Z) : Z := seconds * 1000000.

Section Wrapper.

Context {V : Type} `{Countable V}.
Context {R E W : Type}.

Variable value_ltb : V → V → bool.

(** The exception a subscript [d[k]] raises on a missing key. *)
Variable KeyError : E.

(** A call runs in the state [dict V R * W]: the dictionary [cache] the
    closure holds, and the world of the wrapped callable. *)

(** [key in d] *)
Definition dict_contains (k : list V * list (string * V))
  : exec (dict V R * W) E bool :=
  λ s, (Returned (bool_decide (is_Some (s.1 !! k))), s).

(** [d[key]] *)
Definition dict_getitem (k : list V * list (string * V))
  : exec (dict V R * W) E (entry R) :=
  λ s, match s.1 !! k with
       | Some e => (Returned e, s)
       | None => (Raised KeyError, s)
       end.

(** [d[key] = e] *)
Definition dict_setitem (k : list V * list (string * V)) (e : entry R)
  : exec (dict V R * W) E unit :=
  λ s, (Returned tt, (<[k := e]> s.1, s.2)).

(** [function( *args, **kwargs )] *)
Definition call (function : callable V R E W) (args : list V)
    (kwargs : list (string * V)) : exec (dict V R * W) E R :=
  λ s, let '(o, w') := function args kwargs s.2 in (o, (s.1, w')).

Local Open Scope exec_scope.

(** [generate_wrapped_func(function, cache)] returns [wrapper]; here
    [wrapper function now args kwargs] is one call of it, [now] being the
    value [datetime.now(timezone.utc)] yields on line 7 and the state
    holding [cache]. *)
Definition wrapper (function : callable V R E W) (now : Z) (args : list V)
    (kwargs : list (string * V)) : exec (dict V R * W) E R :=
  let cache_key := cache_key value_ltb args kwargs in
  present <- dict_contains cache_key ;;
  if present : bool then
    e <- dict_getitem cache_key ;;
    (if now >=? expiry e then
       result <- call function args kwargs ;;
       let expiry := now + timedelta 86400 in
       dict_setitem cache_key (Entry result expiry)
     else ret tt) ;;;
    e' <- dict_getitem cache_key ;;
    ret (result e')
  else
    result <- call function args kwargs ;;
    let expiry := now + timedelta 86400 in
    dict_setitem cache_key (Entry result expiry) ;;;
    ret result.

End Wrapper.

(** ** The specification's reading of the wrapper *)

Section WrapperSpec.

Context {V : Type} `{Countable V}.
Context {R E W : Type}.

Variable value_ltb : V → V → bool.

(** The steps of the public contract, in the words of the specification
    of [wrappedFn( *args, **kwargs )]: on a present and expired entry the
    computed [result] is returned directly, without reading the cache
    again; a present and fresh entry yields its stored value; an absent
    key is computed, inserted and returned. *)
Definition wrapper_spec (function : callable V R E W) (now : Z)
    (args : list V) (kwargs : list (string * V)) : exec (dict V R * W) E R :=
  λ s,
    let key := cache_key value_ltb args kwargs in
    match s.1 !! key with
    | Some e =>
        if now >=? expiry e then
          match function args kwargs s.2 with
          | (Returned result, w') =>
              (Returned result, (<[key := Entry result (now + timedelta 86400)]> s.1, w'))
          | (Raised err, w') => (Raised err, (s.1, w'))
          end
        else (Returned (result e), s)
    | None =>
        match function args kwargs s.2 with
        | (Returned result, w') =>
            (Returned result, (<[key := Entry result (now + timedelta 86400)]> s.1, w'))
        | (Raised err, w') => (Raised err, (s.1, w'))
        end
    end.

(** The entry under [key] is usable at [now]: present and not expired. *)
Definition is_fresh (c : dict V R)
    (key : list V * list (string * V)) (now : Z) : bool :=
  match c !! key with
  | Some e => negb (now >=? expiry e)
  | None => false
  end.

(** A callable that counts its own invocations: the world is paired with
    a counter that every invocation increments, whatever its outcome. *)
Definition counted (function : callable V R E W) : callable V R E (nat * W) :=
  λ args kwargs cw,
    let '(o, w') := function args kwargs cw.2 in (o, (S cw.1, w')).

End WrapperSpec.

(** ** The decorators and the store of their dictionaries *)

Section Decorators.

Context {V : Type} `{Countable V}.
Context {R E W : Type}.

Variable value_ltb : V → V → bool.
Variable KeyError : E.

(** The store is the list of the dictionaries allocated so far,
    [list (dict V R)]; a location is an index into it. *)

(** The closure [generate_wrapped_func] returns: the callable and the
    reference to the dictionary it captured. *)
Record wrapped_func : Type := WrappedFunc {
  wf_function : callable V R E W;
  wf_cache : nat
}.

(** [{}]: a new, empty dictionary at a location not used before. *)
Definition new_dict (h : list (dict V R)) : nat * list (dict V R) :=
  (length h, h ++ [∅]).

Definition generate_wrapped_func (function : callable V R E W) (cache : nat)
  : wrapped_func :=
  WrappedFunc function cache.

Definition commander_cache (func : callable V R E W) (h : list (dict V R))
  : wrapped_func * list (dict V R) :=
  let '(cmdr_cache, h') := new_dict h in
  let wrapper_func := generate_wrapped_func func cmdr_cache in
  (wrapper_func, h').

Definition card_detail_cache (func : callable V R E W) (h : list (dict V R))
  : wrapped_func * list (dict V R) :=
  let '(detail_cache, h') := new_dict h in
  let wrapper_func := generate_wrapped_func func detail_cache in
  (wrapper_func, h').

Definition combo_cache (func : callable V R E W) (h : list (dict V R))
  : wrapped_func * list (dict V R) :=
  let '(combo_cache, h') := new_dict h in
  let wrapper_func := generate_wrapped_func func combo_cache in
  (wrapper_func, h').

Definition average_deck_cache (func : callable V R E W) (h : list (dict V R))
  : wrapped_func * list (dict V R) :=
  let '(avg_deck_cache, h') := new_dict h in
  let wrapper_func := generate_wrapped_func func avg_deck_cache in
  (wrapper_func, h').

Definition deck_cache (func : callable V R E W) (h : list (dict V R))
  : wrapped_func * list (dict V R) :=
  let '(deck_cache, h') := new_dict h in
  let wrapper_func := generate_wrapped_func func deck_cache in
  (wrapper_func, h').

(** One call of a wrapped function: [wrapper] runs on the dictionary its
    closure refers to, which is updated in place. *)
Definition call_wrapped (wf : wrapped_func) (now : Z) (args : list V)
    (kwargs : list (string * V)) : exec (list (dict V R) * W) E R :=
  λ s,
    let '(o, (c', w')) :=
      wrapper value_ltb KeyError (wf_function wf) now args kwargs
              (s.1 !!! wf_cache wf, s.2) in
    (o, (<[wf_cache wf := c']> s.1, w')).

(** A sequence of calls, each naming the wrapped function it goes to,
    with its own clock reading and arguments; the outcomes are collected
    in order. *)
Fixpoint call_sequence
    (calls : list (wrapped_func * Z * list V * list (string * V)))
    (s : list (dict V R) * W) : list (outcome E R) * (list (dict V R) * W) :=
  match calls with
  | [] => ([], s)
  | (wf, now, args, kwargs) :: rest =>
      let '(o, s') := call_wrapped wf now args kwargs s in
      let '(os, s'') := call_sequence rest s' in
      (o :: os, s'')
  end.

End Decorators.

Arguments wrapped_func : clear implicits.
Arguments WrappedFunc {V R E W} _ _.
Arguments wf_function {V R E W} _.
Arguments wf_cache {V R E W} _.

(** The five decorators of the module. *)
Inductive decorator : Type :=
| CommanderCache | CardDetailCache | ComboCache | AverageDeckCache | DeckCache.

Definition decorate {V : Type} `{Countable V} {R E W : Type} (d : decorator)
  : callable V R E W → list (dict V R) →
    wrapped_func V R E W * list (dict V R) :=
  match d with
  | CommanderCache => commander_cache
  | CardDetailCache => card_detail_cache
  | ComboCache => combo_cache
  | AverageDeckCache => average_deck_cache
  | DeckCache => deck_cache
  end.

(** ** Python values and the binding of arguments to parameters *)

(** The hashable values the client passes to its cached methods: [None],
    strings, integers, and objects hashed by identity (such as [self]). *)
Inductive pyval : Type :=
| PyNone
| PyStr (s : string)
| PyInt (z : Z)
| PyObj (id : positive).

#[global] Instance pyval_eq_dec : EqDecision pyval.
Proof. solve_decision. Defined.

Definition pyval_to_sum (v : pyval) : unit + string + Z + positive :=
  match v with
  | PyNone => inl (inl (inl tt))
  | PyStr s => inl (inl (inr s))
  | PyInt z => inl (inr z)
  | PyObj id => inr id
  end.

Definition pyval_of_sum (x : unit + string + Z + positive) : pyval :=
  match x with
  | inl (inl (inl _)) => PyNone
  | inl (inl (inr s)) => PyStr s
  | inl (inr z) => PyInt z
  | inr id => PyObj id
  end.

#[global] Instance pyval_countable : Countable pyval.
Proof.
  refine (inj_countable' pyval_to_sum pyval_of_sum _).
  intros []; reflexivity.
Defined.

(** [<] on values: defined between two strings and between two integers. *)
Definition pyval_ltb (a b : pyval) : bool :=
  match a, b with
  | PyStr s, PyStr t => Names.str_ltb s t
  | PyInt x, PyInt y => x <? y
  | _, _ => false
  end.

Section Binding.

Context {V : Type}.

(** Value of the keyword [name] among the keyword arguments. *)
Fixpoint kwargs_get (name : string) (kwargs : list (string * V)) : option V :=
  match kwargs with
  | [] => None
  | (n, v) :: rest => if String.eqb n name then Some v else kwargs_get name rest
  end.

Fixpoint kwargs_remove (name : string) (kwargs : list (string * V))
  : list (string * V) :=
  match kwargs with
  | [] => []
  | (n, v) :: rest =>
      if String.eqb n name then kwargs_remove name rest
      else (n, v) :: kwargs_remove name rest
  end.

(** How a call [f( *args, **kwargs )] binds the parameters of
    [def f(p1, ..., pn=default, ...)]: positional arguments fill the
    parameters from the left, keywords fill the parameters they name, the
    remaining parameters take their defaults.  [None] stands for the
    [TypeError] of a call that does not fit the signature.  [params]
    lists each parameter with its default, if it has one. *)
Fixpoint bind_arguments (params : list (string * option V)) (args : list V)
    (kwargs : list (string * V)) : option (list (string * V)) :=
  match params with
  | [] =>
      match args, kwargs with
      | [], [] => Some []
      | _, _ => None
      end
  | (name, default) :: params' =>
      match args with
      | a :: args' =>
          match kwargs_get name kwargs with
          | Some _ => None
          | None => cons (name, a) <$> bind_arguments params' args' kwargs
          end
      | [] =>
          match kwargs_get name kwargs, default with
          | Some v, _ =>
              cons (name, v) <$> bind_arguments params' [] (kwargs_remove name kwargs)
          | None, Some d => cons (name, d) <$> bind_arguments params' [] kwargs
          | None, None => None
          end
      end
  end.

End Binding.

(** [def get_commander_data(self, card_name, bracket=None, tag=None,
    budget=None)], the method under [@commander_cache]. *)
Definition get_commander_data_params : list (string * option pyval) :=
  [ ("self"%string, None);
    ("card_name"%string, None);
    ("bracket"%string, Some PyNone);
    ("tag"%string, Some PyNone);
    ("budget"%string, Some PyNone) ].

(** ** Sample runs *)

Module Samples.

(** A fetch whose world is the number of fetches made so far; it returns
    the name it was asked for, tagged with that number. *)
Definition fetch : callable pyval (pyval * nat) string nat :=
  λ args kwargs n,
    match args with
    | [PyStr "missing"] => (Raised "not found"%string, S n)
    | a :: _ => (Returned (a, n), S n)
    | [] => (Raised "TypeError"%string, n)
    end.

(** The wrapped fetch, counting the invocations of [fetch]: the world is
    the invocation counter paired with the world of [fetch]. *)
Definition wrapped :=
  wrapper pyval_ltb "KeyError"%string (counted fetch).

Definition ana : list pyval := [PyStr "ana"].
Definition bob : list pyval := [PyStr "bob"].
Definition missing : list pyval := [PyStr "missing"].

Definition x_then_y : list (string * pyval) :=
  [("bracket"%string, PyStr "x"); ("tag"%string, PyStr "y")].
Definition y_then_x : list (string * pyval) :=
  [("tag"%string, PyStr "y"); ("bracket"%string, PyStr "x")].

(** The cache after [wrapped("ana")] at time 0 from an empty cache. *)
Definition cache_ana : dict pyval (pyval * nat) :=
  <[cache_key pyval_ltb ana [] := Entry (PyStr "ana", 0%nat) (0 + timedelta 86400)]> ∅.

(** The cache after [wrapped("ana", tag="y", bracket="x")] at time 0. *)
Definition cache_ana_xy : dict pyval (pyval * nat) :=
  <[cache_key pyval_ltb ana y_then_x :=
      Entry (PyStr "ana", 0%nat) (0 + timedelta 86400)]> ∅.

(** Two methods of the client under two decorators, starting from an
    empty store. *)
Definition commander := decorate CommanderCache fetch [].
Definition combo := decorate ComboCache fetch commander.2.

End Samples.

(** ** Memoizing a function of its arguments *)

Section Consistency.

Context {V : Type} `{Countable V}.
Context {R : Type}.

Variable value_ltb : V → V → bool.

(** Every entry stored under the key of a call holds the value [g] gives
    for the arguments of that call. *)
Definition cache_consistent (g : list V → list (string * V) → R)
    (c : dict V R) : Prop :=
  ∀ args kwargs e,
    c !! cache_key value_ltb args kwargs = Some e → result e = g args kwargs.

End Consistency.

Module PureSamples.

(** A callable without effects: it returns its positional arguments. *)
Definition echo : callable pyval (list pyval) string unit :=
  λ args kwargs w, (Returned args, w).

Definition echo_value (args : list pyval) (kwargs : list (string * pyval))
  : list pyval := args.

Definition echo_wrapped := decorate DeckCache echo [].

End PureSamples.

(** ** The client [EDHRec] of [medhrec.py]: strings *)

(** The operations of [str] the client uses.  A string is its sequence of
    characters; the model of [lower] is that of Python on ASCII text. *)
Module Text.

Definition is_ascii (s : string) : Prop :=
  Forall (λ c, (N_of_ascii c < 128)%N) (list_ascii_of_string s).

Definition is_upper (c : ascii) : bool :=
  ((65 <=? N_of_ascii c) && (N_of_ascii c <=? 90))%N.

Definition lower_char (c : ascii) : ascii :=
  if is_upper c then ascii_of_N (N_of_ascii c + 32) else c.

(** [s.lower()] *)
Fixpoint lower (s : string) : string :=
  match s with
  | EmptyString => EmptyString
  | String c s' => String (lower_char c) (lower s')
  end.

(** [s.replace(old, new)] for a pattern [old] of one character. *)
Fixpoint replace (old : ascii) (new : string) (s : string) : string :=
  match s with
  | EmptyString => EmptyString
  | String c s' =>
      if Ascii.eqb c old then new ++ replace old new s'
      else String c (replace old new s')
  end.

(** [s.startswith(prefix)] *)
Definition startswith (s prefix : string) : bool := String.prefix prefix s.

(** [sep.join(parts)] *)
Fixpoint join (sep : string) (parts : list string) : string :=
  match parts with
  | [] => EmptyString
  | [p] => p
  | p :: rest => p ++ sep ++ join sep rest
  end.

(** Truth value of an [Optional[str]]: [None] and the empty string are
    false. *)
Definition truthy (o : option string) : bool :=
  match o with
  | Some s => negb (String.eqb s EmptyString)
  | None => false
  end.

(** An [Optional[str]] inside an f-string. *)
Definition fstr (o : option string) : string := default "None"%string o.

End Text.

Local Open Scope string_scope.

(** [EDHRec.format_card_name] *)
Definition format_card_name (card_name : string) : string :=
  let card_name := Text.lower card_name in
  let card_name := Text.replace " " "-" card_name in
  let card_name := Text.replace "'" "" card_name in
  let card_name := Text.replace "," "" card_name in
  card_name.

(** [f"'{item}'"] *)
Definition quoted (item : string) : string := "'" ++ item ++ "'".

(** [EDHRec._format_list]; [removelast items] is [items[:-1]] and
    [last items] is [items[-1]]. *)
Definition _format_list (items : list string) : string :=
  match items with
  | [] => ""
  | [a] => quoted a
  | [a; b] => quoted a ++ " and " ++ quoted b
  | _ => Text.join ", " (quoted <$> removelast items)
           ++ " and " ++ quoted (List.last items "")
  end.

(** The attributes of an [EDHRec] instance that its methods read or write.
    The three [available_*] collections come from a module outside these
    sources and are fields here. *)
Record EDHRec : Type := {
  base_url : string;
  _json_base_url : string;
  _api_base_url : string;
  default_build_id : string;
  current_build_id : option string;
  available_brackets : list string;
  available_tags : list string;
  available_budgets : list string
}.

(** [EDHRec.__init__], as far as these attributes go. *)
Definition __init__ (brackets tags budgets : list string) : EDHRec :=
  {| base_url := "https://edhrec.com";
     _json_base_url := "https://json.edhrec.com/cards";
     _api_base_url := "https://edhrec.com" ++ "/api";
     default_build_id := "mI7k8IZ23x74LocK_h-qe";
     current_build_id := None;
     available_brackets := brackets;
     available_tags := tags;
     available_budgets := budgets |}.

(** [EDHRec.get_card_link] *)
Definition get_card_link (self : EDHRec) (card_name : string) : string :=
  let formatted_card_name := format_card_name card_name in
  base_url self ++ "/cards/" ++ formatted_card_name.

(** [EDHRec.get_combo_url] *)
Definition get_combo_url (self : EDHRec) (combo_url : string) : string :=
  let uri := base_url self in
  if Text.startswith combo_url "/" then uri ++ combo_url
  else uri ++ "/" ++ combo_url.

Local Close Scope string_scope.

(** ** The client: the cookie *)

Module Cookie.

Local Open Scope string_scope.

(** The scan of [s.split(sep)] for a separator that is not empty: [skip]
    counts the characters of a separator just found that are still to be
    passed over, [cur] is the piece read so far. *)
Fixpoint split_scan (sep : string) (s : string) (skip : nat) (cur : string)
  : list string :=
  match s with
  | EmptyString => [cur]
  | String c s' =>
      match skip with
      | S k => split_scan sep s' k cur
      | O =>
          if String.prefix sep s
          then cur :: split_scan sep s' (String.length sep - 1) ""
          else split_scan sep s' 0 (cur ++ String c "")
      end
  end.

(** [s.split(sep)] *)
Definition split (s sep : string) : list string := split_scan sep s 0 "".

(** [EDHRec.get_cookie_jar], up to the dictionary [d] that the cookie jar
    is built from; [None] stands for the [IndexError] of the subscript. *)
Definition get_cookie_jar (cookie_str : string) : option (list (string * string)) :=
  cookie_str ←
    (if Text.startswith cookie_str "userState="
     then split cookie_str "userState=" !! 1%nat
     else Some cookie_str) ;
  let d := [("userState", cookie_str)] in
  Some d.

End Cookie.

(** ** The client: Python values, exceptions and the network *)

Module Py.

(** The exceptions the client raises or lets through.  [Exception msg] is
    [Exception(msg)]; [HTTPError] is what [raise_for_status] raises;
    [OtherError] stands for the failures of the network and of decoding. *)
Inductive pyexn : Type :=
| KeyError
| TypeError
| AttributeError
| Exception (msg : string)
| HTTPError (status : Z)
| OtherError (name : string).

(** A decoded JSON document, as [res.json()] yields it: [None], booleans,
    finite numbers, strings, lists, and dictionaries with string keys.  The
    fields of a dictionary are listed in insertion order with pairwise
    distinct names. *)
#[warnings="-register-all"]
Inductive json : Type :=
| JNull
| JBool (b : bool)
| JNum (q : Q)
| JStr (s : string)
| JArr (items : list json)
| JObj (fields : list (string * json)).

(** Last binding of [name] among the fields of a dictionary. *)
Fixpoint field (name : string) (fields : list (string * json)) : option json :=
  match fields with
  | [] => None
  | (n, v) :: rest =>
      match field name rest with
      | Some v' => Some v'
      | None => if String.eqb n name then Some v else None
      end
  end.

(** [d.get(name, default)]; only dictionaries have [get]. *)
Definition get (d : json) (name : string) (default : json)
  : outcome pyexn json :=
  match d with
  | JObj fields => Returned (from_option id default (field name fields))
  | _ => Raised AttributeError
  end.

(** [d[name]] with a string subscript. *)
Definition getitem (d : json) (name : string) : outcome pyexn json :=
  match d with
  | JObj fields =>
      match field name fields with
      | Some v => Returned v
      | None => Raised KeyError
      end
  | _ => Raised TypeError
  end.

(** The values [for x in d] goes through: the items of a list, the keys
    of a dictionary, the characters of a string. *)
Definition iter (d : json) : outcome pyexn (list json) :=
  match d with
  | JArr items => Returned items
  | JObj fields => Returned ((λ f, JStr f.1) <$> fields)
  | JStr s => Returned ((λ c, JStr (String c EmptyString)) <$> list_ascii_of_string s)
  | _ => Raised TypeError
  end.

(** The number a value counts as when compared: booleans are 0 and 1. *)
Definition as_number (v : json) : option Q :=
  match v with
  | JBool b => Some (if b then 1%Q else 0%Q)
  | JNum q => Some q
  | _ => None
  end.

(** [a == b] between hashable values, the test a dictionary applies to
    its keys. *)
Definition key_eqb (a b : json) : bool :=
  match a, b with
  | JNull, JNull => true
  | JStr s, JStr t => String.eqb s t
  | _, _ =>
      match as_number a, as_number b with
      | Some x, Some y => Qeq_bool x y
      | _, _ => false
      end
  end.

Definition hashable (v : json) : bool :=
  match v with
  | JArr _ | JObj _ => false
  | _ => true
  end.

(** [d[k] = v] on a dictionary with arbitrary hashable keys, kept as the
    list of its items in insertion order: an existing key keeps its place
    and its key object. *)
Fixpoint setitem_items (k v : json) (d : list (json * json)) : list (json * json) :=
  match d with
  | [] => [(k, v)]
  | (k', v') :: rest =>
      if key_eqb k' k then (k', v) :: rest else (k', v') :: setitem_items k v rest
  end.

Definition setitem (k v : json) (d : list (json * json))
  : outcome pyexn (list (json * json)) :=
  if hashable k then Returned (setitem_items k v d) else Raised TypeError.

(** [d.get(k)] on such a dictionary, for a hashable [k]. *)
Fixpoint lookup_items (k : json) (d : list (json * json)) : option json :=
  match d with
  | [] => None
  | (k', v') :: rest => if key_eqb k' k then Some v' else lookup_items k rest
  end.

(** [sub in s] between strings. *)
Fixpoint contains (s sub : string) : bool :=
  String.prefix sub s ||
  match s with
  | EmptyString => false
  | String _ s' => contains s' sub
  end.

(** [name in d] for a string [name]. *)
Definition contains_str (d : json) (name : string) : outcome pyexn bool :=
  match d with
  | JObj fields => Returned (bool_decide (is_Some (field name fields)))
  | JArr items => Returned (existsb (λ x, key_eqb x (JStr name)) items)
  | JStr s => Returned (contains s name)
  | _ => Raised TypeError
  end.

(** What [session.get] answers: the status, the outcome of [res.json()]
    and the raw [res.content]. *)
Record response : Type := Response {
  status_code : Z;
  json_body : outcome pyexn json;
  content : string
}.

(** [res.raise_for_status()] *)
Definition raise_for_status (res : response) : outcome pyexn unit :=
  if (400 <=? status_code res) && (status_code res <? 600)
  then Raised (HTTPError (status_code res))
  else Returned tt.

(** A dictionary with string keys and string values, updated in place. *)
Fixpoint set_param (k v : string) (d : list (string * string)) : list (string * string) :=
  match d with
  | [] => [(k, v)]
  | (k', v') :: rest =>
      if String.eqb k' k then (k', v) :: rest else (k', v') :: set_param k v rest
  end.

Fixpoint get_param (k : string) (d : list (string * string)) : option string :=
  match d with
  | [] => None
  | (k', v') :: rest => if String.eqb k' k then Some v' else get_param k rest
  end.

End Py.

(** ** The client: requests, build identifier and addresses *)

Section Client.

Import Py.

(** The state of the network and of the remote site. *)
Context {Net : Type}.

(** [self.session.get(uri, params=query_params)] *)
Variable session_get :
  string → option (list (string * string)) → Net → outcome pyexn response * Net.

(** What [get_build_id] does with the bytes of the home page: decoding,
    the search for the [__NEXT_DATA__] script block, [json.loads] and the
    lookup of ["buildId"]. *)
Variable extract_build_id : string → outcome pyexn (option string).

Local Open Scope exec_scope.
Local Open Scope string_scope.

(** The result of a pure step, as a computation. *)
Definition lift {S A} (o : outcome pyexn A) : exec S pyexn A := λ s, (o, s).

Definition get_self : exec (EDHRec * Net) pyexn EDHRec := λ s, (Returned s.1, s).

(** [self.current_build_id = value] *)
Definition set_current_build_id (value : option string)
  : exec (EDHRec * Net) pyexn unit :=
  λ s, (Returned tt,
        ({| base_url := base_url s.1;
            _json_base_url := _json_base_url s.1;
            _api_base_url := _api_base_url s.1;
            default_build_id := default_build_id s.1;
            current_build_id := value;
            available_brackets := available_brackets s.1;
            available_tags := available_tags s.1;
            available_budgets := available_budgets s.1 |}, s.2)).

Definition do_session_get (uri : string)
    (query_params : option (list (string * string)))
  : exec (EDHRec * Net) pyexn response :=
  λ s, let '(o, net) := session_get uri query_params s.2 in (o, (s.1, net)).

(** [config_context.get(name)]; the context maps names to optional
    strings. *)
Definition context_get (config_context : list (string * option string))
    (name : string) : option string :=
  match list_find (λ kv, kv.1 = name) config_context with
  | Some (_, (_, v)) => v
  | None => None
  end.

(** The parts of the 404 message: one for every field of the context that
    is set, in the order commander, bracket, tag, budget. *)
Definition config_parts (config_context : list (string * option string))
  : list string :=
  let config_parts := [] in
  let config_parts :=
    if Text.truthy (context_get config_context "card_name")
    then List.app config_parts ["commander '" ++ Text.fstr (context_get config_context "card_name") ++ "'"]
    else config_parts in
  let config_parts :=
    if Text.truthy (context_get config_context "bracket")
    then List.app config_parts ["bracket '" ++ Text.fstr (context_get config_context "bracket") ++ "'"]
    else config_parts in
  let config_parts :=
    if Text.truthy (context_get config_context "tag")
    then List.app config_parts ["tag '" ++ Text.fstr (context_get config_context "tag") ++ "'"]
    else config_parts in
  let config_parts :=
    if Text.truthy (context_get config_context "budget")
    then List.app config_parts ["budget '" ++ Text.fstr (context_get config_context "budget") ++ "'"]
    else config_parts in
  config_parts.

(** The message of the 404 error raised with a context. *)
Definition not_available_message (config_context : list (string * option string))
  : string :=
  let config_str := Text.join ", " (config_parts config_context) in
  let data_type :=
    match list_find (λ kv, kv.1 = "data_type") config_context with
    | Some (_, (_, v)) => Text.fstr v
    | None => "data"
    end in
  "No " ++ data_type ++ " available on EDHRec for this configuration: "
    ++ config_str ++ ". "
    ++ "This combination may not have enough data on the website.".

(** [EDHRec._get]: the decoded JSON body, or the raw content. *)
Definition _get (uri : string) (query_params : option (list (string * string)))
    (return_type : string)
    (config_context : option (list (string * option string)))
  : exec (EDHRec * Net) pyexn (json + string) :=
  res <- do_session_get uri query_params ;;
  if Z.eqb (status_code res) 404 then
    match config_context with
    | Some (item :: items) =>
        lift (Raised (Exception (not_available_message (item :: items))))
    | _ => lift (Raised (Exception ("Resource not found: " ++ uri)))
    end
  else
    lift (raise_for_status res) ;;;
    if String.eqb return_type "json" then
      res_json <- lift (json_body res) ;;
      ret (inl res_json)
    else ret (inr (content res)).

(** [EDHRec._get_nextjs_data], applied to what [_get] returned. *)
Definition _get_nextjs_data (response : json + string) : outcome pyexn json :=
  match response with
  | inr _ => Raised TypeError
  | inl response =>
      match contains_str response "pageProps" with
      | Raised e => Raised e
      | Returned true =>
          match get response "pageProps" (JObj []) with
          | Returned page_props => get page_props "data" JNull
          | Raised e => Raised e
          end
      | Returned false => Returned JNull
      end
  end.

(** [EDHRec.get_build_id] *)
Definition get_build_id : exec (EDHRec * Net) pyexn (option string) :=
  self <- get_self ;;
  home_page <- _get (base_url self) None "raw" None ;;
  match home_page with
  | inr home_page => lift (extract_build_id home_page)
  | inl _ => lift (Raised AttributeError)
  end.

(** [EDHRec.check_build_id] *)
Definition check_build_id : exec (EDHRec * Net) pyexn bool :=
  self <- get_self ;;
  (if negb (Text.truthy (current_build_id self)) then
     build_id <- get_build_id ;;
     set_current_build_id build_id ;;;
     self <- get_self ;;
     if negb (Text.truthy (current_build_id self))
     then set_current_build_id (Some (default_build_id self))
     else ret tt
   else ret tt) ;;;
  ret true.

(** [EDHRec._build_nextjs_uri] *)
Definition _build_nextjs_uri (endpoint card_name : string)
    (bracket tag budget : option string)
  : exec (EDHRec * Net) pyexn (string * list (string * string)) :=
  check_build_id ;;;
  self <- get_self ;;
  let formatted_card_name := format_card_name card_name in
  let query_params := [("commanderName", formatted_card_name)] in
  let uri :=
    base_url self ++ "/_next/data/" ++ Text.fstr (current_build_id self)
      ++ "/" ++ endpoint ++ "/" ++ formatted_card_name in
  uri <-
    (if Text.truthy bracket then
       if bool_decide (Text.fstr bracket ∈ available_brackets self)
       then ret (uri ++ "/" ++ Text.fstr bracket)
       else lift (Raised (Exception
              ("Invalid bracket parameter passed: '" ++ Text.fstr budget
                 ++ "'. Only " ++ _format_list (available_brackets self)
                 ++ " available.")))
     else ret uri) ;;
  uq <-
    (if Text.truthy tag then
       if bool_decide (Text.fstr tag ∈ available_tags self)
       then ret (uri ++ "/" ++ Text.fstr tag,
                 if negb (Text.truthy budget)
                 then set_param "themeName" (Text.fstr tag) query_params
                 else query_params)
       else lift (Raised (Exception
              ("Invalid tag parameter passed: '" ++ Text.fstr tag
                 ++ "'. Only " ++ _format_list (available_tags self)
                 ++ " available.")))
     else ret (uri, query_params)) ;;
  uq <-
    (if Text.truthy budget then
       if bool_decide (Text.fstr budget ∈ available_budgets self)
       then ret (uq.1 ++ "/" ++ Text.fstr budget,
                 set_param "themeName" (Text.fstr budget) uq.2)
       else lift (Raised (Exception
              ("Invalid budget parameter passed: '" ++ Text.fstr budget
                 ++ "'. Only " ++ _format_list (available_budgets self)
                 ++ " available.")))
     else ret uq) ;;
  let uri := uq.1 ++ ".json" in
  let query_params :=
    if String.eqb endpoint "combos"
    then set_param "colors" formatted_card_name uq.2
    else uq.2 in
  ret (uri, query_params).

(** The context the three commander methods pass to [_get]. *)
Definition commander_context (card_name : string)
    (bracket tag budget : option string) (data_type : string)
  : list (string * option string) :=
  [("card_name", Some card_name); ("bracket", bracket); ("tag", tag);
   ("budget", budget); ("data_type", Some data_type)].

(** [EDHRec.get_commander_data], the method under [@commander_cache]. *)
Definition get_commander_data (card_name : string)
    (bracket tag budget : option string) : exec (EDHRec * Net) pyexn json :=
  built <- _build_nextjs_uri "commanders" card_name bracket tag budget ;;
  let '(commander_uri, params) := built in
  let config_context := commander_context card_name bracket tag budget "data" in
  res <- _get commander_uri (Some params) "json" (Some config_context) ;;
  data <- lift (_get_nextjs_data res) ;;
  ret data.

(** [EDHRec.get_commanders_average_deck], under [@average_deck_cache]. *)
Definition get_commanders_average_deck (card_name : string)
    (bracket tag budget : option string) : exec (EDHRec * Net) pyexn json :=
  built <- _build_nextjs_uri "average-decks" card_name bracket tag budget ;;
  let '(average_deck_uri, params) := built in
  let config_context :=
    commander_context card_name bracket tag budget "average deck data" in
  res <- _get average_deck_uri (Some params) "json" (Some config_context) ;;
  data <- lift (_get_nextjs_data res) ;;
  deck <- lift (get data "deck" JNull) ;;
  let deck_obj := JObj [("commander", JStr card_name); ("decklist", deck)] in
  ret deck_obj.

(** [EDHRec.get_commander_decks], under [@deck_cache]. *)
Definition get_commander_decks (card_name : string)
    (bracket tag budget : option string) : exec (EDHRec * Net) pyexn json :=
  built <- _build_nextjs_uri "decks" card_name bracket tag budget ;;
  let '(average_deck_uri, params) := built in
  let config_context :=
    commander_context card_name bracket tag budget "deck data" in
  res <- _get average_deck_uri (Some params) "json" (Some config_context) ;;
  data <- lift (_get_nextjs_data res) ;;
  ret data.

(** [EDHRec.get_card_details], under [@card_detail_cache]. *)
Definition get_card_details (card_name : string)
  : exec (EDHRec * Net) pyexn (json + string) :=
  self <- get_self ;;
  let formatted_card_name := format_card_name card_name in
  let uri := _json_base_url self ++ "/" ++ formatted_card_name in
  res <- _get uri None "json" None ;;
  ret res.

(** [EDHRec.get_card_combos], under [@combo_cache]. *)
Definition get_card_combos (card_name : string)
  : exec (EDHRec * Net) pyexn json :=
  built <- _build_nextjs_uri "combos" card_name None None None ;;
  let '(combo_uri, params) := built in
  res <- _get combo_uri (Some params) "json" None ;;
  data <- lift (_get_nextjs_data res) ;;
  ret data.

End Client.

(** ** The client: methods that read the cached commander data *)

Section Getters.

Import Py.

(** The world of the method [get_commander_data] as it stands under
    [@commander_cache]: a wrapped function from Python arguments to a
    decoded document. *)
Context {W : Type}.
Variable cached_get_commander_data : wrapped_func pyval json pyexn W.

(** The instance the methods are called on, as an argument value. *)
Variable self : pyval.

Local Open Scope exec_scope.
Local Open Scope string_scope.

(** An [Optional[str]] as an argument value. *)
Definition optional (o : option string) : pyval :=
  match o with
  | Some s => PyStr s
  | None => PyNone
  end.

(** [self.get_commander_data(card_name, bracket=bracket, tag=tag,
    budget=budget)], the call made by all getters but one. *)
Definition commander_data_call (now : Z) (card_name : string)
    (bracket tag budget : option string)
  : exec (list (dict pyval json) * W) pyexn json :=
  call_wrapped pyval_ltb KeyError cached_get_commander_data now
    [self; PyStr card_name]
    [("bracket", optional bracket); ("tag", optional tag);
     ("budget", optional budget)].

(** [_tag == category], with [category] a string. *)
Definition equals_str (v : json) (s : string) : bool :=
  match v with
  | JStr t => String.eqb t s
  | _ => false
  end.

(** The loop of [_get_cardlist_from_container] over the card lists, from
    the dictionary [result] built so far. *)
Fixpoint cardlist_loop (category : option string) (card_lists : list json)
    (result : list (json * json)) : outcome pyexn (list (json * json)) :=
  match card_lists with
  | [] => Returned result
  | cl :: rest =>
      match get cl "cardviews" JNull, get cl "header" JNull, get cl "tag" JNull with
      | Returned _card_list, Returned _header, Returned _tag =>
          if Text.truthy category then
            if equals_str _tag (Text.fstr category) then
              setitem _header _card_list result
            else cardlist_loop category rest result
          else
            match setitem _header _card_list result with
            | Returned result => cardlist_loop category rest result
            | Raised e => Raised e
            end
      | Raised e, _, _ => Raised e
      | _, Raised e, _ => Raised e
      | _, _, Raised e => Raised e
      end
  end.

(** What [_get_cardlist_from_container] does with the commander data. *)
Definition container_cardlists (category : option string) (card_data : json)
  : outcome pyexn (list (json * json)) :=
  match get card_data "container" (JObj []) with
  | Raised e => Raised e
  | Returned container =>
      match get container "json_dict" (JObj []) with
      | Raised e => Raised e
      | Returned json_dict =>
          match get json_dict "cardlists" JNull with
          | Raised e => Raised e
          | Returned card_lists =>
              match iter card_lists with
              | Raised e => Raised e
              | Returned card_lists => cardlist_loop category card_lists []
              end
          end
      end
  end.

(** [EDHRec._get_cardlist_from_container] *)
Definition _get_cardlist_from_container (now : Z) (card_name : string)
    (category bracket tag budget : option string)
  : exec (list (dict pyval json) * W) pyexn (list (json * json)) :=
  card_data <- commander_data_call now card_name bracket tag budget ;;
  lift (container_cardlists category card_data).

(** The getters of card lists, each with its category. *)
Definition get_commander_cards (now : Z) (card_name : string)
    (bracket tag budget : option string) :=
  _get_cardlist_from_container now card_name None bracket tag budget.

Definition get_new_cards (now : Z) (card_name : string)
    (bracket tag budget : option string) :=
  _get_cardlist_from_container now card_name (Some "newcards") bracket tag budget.

Definition get_high_synergy_cards (now : Z) (card_name : string)
    (bracket tag budget : option string) :=
  _get_cardlist_from_container now card_name (Some "highsynergycards")
    bracket tag budget.

Definition get_top_cards (now : Z) (card_name : string)
    (bracket tag budget : option string) :=
  _get_cardlist_from_container now card_name (Some "topcards") bracket tag budget.

Definition get_top_creatures (now : Z) (card_name : string)
    (bracket tag budget : option string) :=
  _get_cardlist_from_container now card_name (Some "creatures") bracket tag budget.

Definition get_top_instants (now : Z) (card_name : string)
    (bracket tag budget : option string) :=
  _get_cardlist_from_container now card_name (Some "instants") bracket tag budget.

Definition get_top_sorceries (now : Z) (card_name : string)
    (bracket tag budget : option string) :=
  _get_cardlist_from_container now card_name (Some "sorceries") bracket tag budget.

Definition get_top_artifacts (now : Z) (card_name : string)
    (bracket tag budget : option string) :=
  _get_cardlist_from_container now card_name (Some "utilityartifacts")
    bracket tag budget.

Definition get_top_mana_artifacts (now : Z) (card_name : string)
    (bracket tag budget : option string) :=
  _get_cardlist_from_container now card_name (Some "manaartifacts")
    bracket tag budget.

Definition get_top_enchantments (now : Z) (card_name : string)
    (bracket tag budget : option string) :=
  _get_cardlist_from_container now card_name (Some "enchantments")
    bracket tag budget.

Definition get_top_battles (now : Z) (card_name : string)
    (bracket tag budget : option string) :=
  _get_cardlist_from_container now card_name (Some "battles") bracket tag budget.

Definition get_top_planeswalkers (now : Z) (card_name : string)
    (bracket tag budget : option string) :=
  _get_cardlist_from_container now card_name (Some "planeswalkers")
    bracket tag budget.

Definition get_top_lands (now : Z) (card_name : string)
    (bracket tag budget : option string) :=
  _get_cardlist_from_container now card_name (Some "lands") bracket tag budget.

Definition get_top_utility_lands (now : Z) (card_name : string)
    (bracket tag budget : option string) :=
  _get_cardlist_from_container now card_name (Some "utilitylands")
    bracket tag budget.

(** The loop [for x in items: data[x[key_name]] = x[value_name]]; the
    right-hand side is evaluated first. *)
Fixpoint collect_loop (key_name value_name : string) (items : list json)
    (data : list (json * json)) : outcome pyexn (list (json * json)) :=
  match items with
  | [] => Returned data
  | x :: rest =>
      match getitem x value_name with
      | Raised e => Raised e
      | Returned v =>
          match getitem x key_name with
          | Raised e => Raised e
          | Returned k =>
              match setitem k v data with
              | Raised e => Raised e
              | Returned data => collect_loop key_name value_name rest data
              end
          end
      end
  end.

(** What [get_commander_type_distributions] does with the commander data. *)
Definition type_distributions (commander_data : json)
  : outcome pyexn (list (json * json)) :=
  match getitem commander_data "panels" with
  | Raised e => Raised e
  | Returned panels =>
      match getitem panels "piechart" with
      | Raised e => Raised e
      | Returned piechart =>
          match getitem piechart "content" with
          | Raised e => Raised e
          | Returned content =>
              match iter content with
              | Raised e => Raised e
              | Returned segments => collect_loop "label" "value" segments []
              end
          end
      end
  end.

(** [EDHRec.get_commander_type_distributions] *)
Definition get_commander_type_distributions (now : Z) (card_name : string)
    (bracket tag budget : option string)
  : exec (list (dict pyval json) * W) pyexn (list (json * json)) :=
  commander_data <- commander_data_call now card_name bracket tag budget ;;
  lift (type_distributions commander_data).

(** What [get_commander_tags] does with the commander data. *)
Definition tag_counts (commander_data : json)
  : outcome pyexn (list (json * json)) :=
  match getitem commander_data "panels" with
  | Raised e => Raised e
  | Returned panels =>
      match getitem panels "taglinks" with
      | Raised e => Raised e
      | Returned taglinks =>
          match iter taglinks with
          | Raised e => Raised e
          | Returned tags => collect_loop "value" "count" tags []
          end
      end
  end.

(** [EDHRec.get_commander_tags]: the one getter that calls
    [self.get_commander_data(card_name, bracket=bracket)]. *)
Definition get_commander_tags (now : Z) (card_name : string)
    (bracket : option string)
  : exec (list (dict pyval json) * W) pyexn (list (json * json)) :=
  commander_data <-
    call_wrapped pyval_ltb KeyError cached_get_commander_data now
      [self; PyStr card_name] [("bracket", optional bracket)] ;;
  lift (tag_counts commander_data).

(** What [get_commander_mana_curve] does with the commander data. *)
Definition mana_curve (commander_data : json) : outcome pyexn json :=
  match getitem commander_data "panels" with
  | Raised e => Raised e
  | Returned panels => getitem panels "mana_curve"
  end.

(** [EDHRec.get_commander_mana_curve] *)
Definition get_commander_mana_curve (now : Z) (card_name : string)
    (bracket tag budget : option string)
  : exec (list (dict pyval json) * W) pyexn json :=
  commander_data <- commander_data_call now card_name bracket tag budget ;;
  lift (mana_curve commander_data).

End Getters.

(** ** Closed forms used to state what the getters compute *)

Module Lists.

Import Py.

Local Open Scope string_scope.

(** What [cl.get(name)] gives on a card list that is a dictionary. *)
Definition attribute (name : string) (cl : json) : json :=
  match cl with
  | JObj fields => from_option id JNull (field name fields)
  | _ => JNull
  end.

Definition is_object (cl : json) : bool :=
  match cl with
  | JObj _ => true
  | _ => false
  end.

(** The card views of the last card list whose header is the string [h]. *)
Fixpoint last_cardviews (h : string) (card_lists : list json) : option json :=
  match card_lists with
  | [] => None
  | cl :: rest =>
      match last_cardviews h rest with
      | Some v => Some v
      | None =>
          if equals_str (attribute "header" cl) h
          then Some (attribute "cardviews" cl) else None
      end
  end.

(** The value under [value_name] of the last item whose [key_name] is the
    string [k]. *)
Fixpoint last_with (key_name value_name k : string) (items : list json)
  : option json :=
  match items with
  | [] => None
  | x :: rest =>
      match last_with key_name value_name k rest with
      | Some v => Some v
      | None =>
          if equals_str (attribute key_name x) k
          then Some (attribute value_name x) else None
      end
  end.

End Lists.

(** ** Closed forms used to state what the address builder computes *)

Module Shape.

Local Open Scope string_scope.

(** The path segment an optional parameter contributes. *)
Definition segment (o : option string) : string :=
  if Text.truthy o then "/" ++ Text.fstr o else "".

(** The address of a commander page. *)
Definition nextjs_uri (self : EDHRec) (endpoint card_name : string)
    (bracket tag budget : option string) : string :=
  base_url self ++ "/_next/data/" ++ Text.fstr (current_build_id self)
    ++ "/" ++ endpoint ++ "/" ++ format_card_name card_name
    ++ segment bracket ++ segment tag ++ segment budget ++ ".json".

(** An optional parameter is usable: unset, or one of the available
    values. *)
Definition acceptable (o : option string) (available : list string) : Prop :=
  Text.truthy o = true → Text.fstr o ∈ available.

End Shape.

(** A site for sample runs: the network state counts the requests; every
    page exists except those of the commander "nobody", and every body is
    the same document. *)
Module Site.

Import Py.

Local Open Scope string_scope.

Definition card_lists : list json :=
  [JObj [("header", JStr "New Cards"); ("tag", JStr "newcards");
         ("cardviews", JArr [JStr "a"])];
   JObj [("header", JStr "Lands"); ("tag", JStr "lands");
         ("cardviews", JArr [JStr "b"])];
   JObj [("header", JStr "Lands"); ("tag", JStr "utilitylands");
         ("cardviews", JArr [JStr "c"])]].

(** The commander data of the page. *)
Definition data : json :=
  JObj [("container", JObj [("json_dict", JObj [("cardlists", JArr card_lists)])])].

Definition page_props : list (string * json) := [("data", data)].

Definition page_fields : list (string * json) := [("pageProps", JObj page_props)].

Definition page : json := JObj page_fields.

Definition session_get (uri : string)
    (query_params : option (list (string * string)))
    (net : nat) : outcome pyexn response * nat :=
  if Py.contains uri "/nobody"
  then (Returned (Response 404 (Raised (OtherError "JSONDecodeError")) ""), S net)
  else (Returned (Response 200 (Returned page) "<html>"), S net).

Definition extract_build_id (home_page : string)
  : outcome pyexn (option string) :=
  Returned (Some "build42").

Definition client : EDHRec :=
  __init__ ["exhibition"; "core"] ["tokens"; "artifacts"] ["budget"; "expensive"].

(** The client once its build identifier is known. *)
Definition ready : EDHRec :=
  {| base_url := base_url client;
     _json_base_url := _json_base_url client;
     _api_base_url := _api_base_url client;
     default_build_id := default_build_id client;
     current_build_id := Some "build42";
     available_brackets := available_brackets client;
     available_tags := available_tags client;
     available_budgets := available_budgets client |}.

(** The method [get_commander_data] of the sample client, as a callable
    on the count of requests, and under its decorator. *)
Definition fetch_commander : callable pyval json pyexn nat :=
  λ args kwargs net, (Returned data, S net).

Definition cached := decorate CommanderCache fetch_commander [].

Definition atraxa : string := "Atraxa, Praetors' Voice".

(** The client instance as an argument value. *)
Definition me : pyval := PyObj 1.

(** The key of the call the card-list getters make for [atraxa] with no
    bracket, tag or budget, and the store after that call at time 0. *)
Definition atraxa_key : list pyval * list (string * pyval) :=
  cache_key pyval_ltb [me; PyStr atraxa]
    [("bracket", PyNone); ("tag", PyNone); ("budget", PyNone)].

Definition after_fetch : list (dict pyval json) * nat :=
  (<[wf_cache cached.1 :=
       <[atraxa_key := Entry data (0 + timedelta 86400)]> ∅]> cached.2, 1%nat).

End Site.

(** * Properties *)

(** ** The order on names is a strict total order *)

Module NamesFacts.
Import Names.

Lemma str_lt_iff (a b : string) : str_lt a b ↔ String_as_OT.lt a b.
Proof.
  unfold str_lt, str_ltb, String.ltb, String_as_OT.lt.
  change (String.compare a b) with (String_as_OT.compare a b).
  destruct (String_as_OT.compare a b); split; congruence.
Qed.

Lemma str_lt_irrefl (a : string) : ¬ str_lt a a.
Proof.
  rewrite str_lt_iff. apply (StrictOrder_Irreflexive (R := String_as_OT.lt)).
Qed.

Lemma str_lt_trans (a b c : string) : str_lt a b → str_lt b c → str_lt a c.
Proof.
  rewrite !str_lt_iff. apply (StrictOrder_Transitive (R := String_as_OT.lt)).
Qed.

Lemma str_lt_asym (a b : string) : str_lt a b → ¬ str_lt b a.
Proof.
  intros Hab Hba. exact (str_lt_irrefl a (str_lt_trans _ _ _ Hab Hba)).
Qed.

Lemma str_lt_trichotomy (a b : string) : a ≠ b → ¬ str_lt a b → str_lt b a.
Proof.
  intros Hne Hnlt. rewrite str_lt_iff in *.
  destruct (String_as_OT.compare_spec a b) as [Heq|Hlt|Hgt];
    [ contradiction | contradiction | exact Hgt ].
Qed.

End NamesFacts.

(** ** Sorting the keyword items *)

Section SortedFacts.

Context {V : Type}.
Variable value_ltb : V → V → bool.

Lemma item_ltb_names (x y : string * V) :
  x.1 ≠ y.1 → item_ltb value_ltb x y = Names.str_ltb x.1 y.1.
Proof.
  intros Hne. unfold item_ltb.
  destruct (String.eqb_spec x.1 y.1) as [Heq|_]; [contradiction | reflexivity].
Qed.

Lemma insert_sorted_perm (x : string * V) (l : list (string * V)) :
  insert_sorted value_ltb x l ≡ₚ x :: l.
Proof.
  induction l as [|y l IH]; simpl; [reflexivity|].
  destruct (item_ltb value_ltb y x); [|reflexivity].
  rewrite IH. apply Permutation_swap.
Qed.

Lemma sorted_perm (l : list (string * V)) : sorted value_ltb l ≡ₚ l.
Proof.
  induction l as [|x l IH]; simpl; [reflexivity|].
  rewrite insert_sorted_perm. by rewrite IH.
Qed.

Lemma insert_sorted_strongly (x : string * V) (l : list (string * V)) :
  x.1 ∉ l.*1 →
  StronglySorted name_lt l →
  StronglySorted name_lt (insert_sorted value_ltb x l).
Proof.
  induction l as [|y l IH]; intros Hnotin Hsorted; simpl.
  { repeat constructor. }
  apply StronglySorted_cons in Hsorted as [Hall Hsorted].
  rewrite fmap_cons, not_elem_of_cons in Hnotin.
  destruct Hnotin as [Hne Hnotin].
  rewrite item_ltb_names by congruence.
  destruct (Names.str_ltb y.1 x.1) eqn:Hyx.
  - apply StronglySorted_cons. split; [|by apply IH].
    rewrite insert_sorted_perm. by constructor.
  - assert (name_lt x y) as Hxy.
    { apply NamesFacts.str_lt_trichotomy; [congruence|].
      unfold Names.str_lt. by rewrite Hyx. }
    apply StronglySorted_cons. split; [|by apply StronglySorted_cons].
    constructor; [done|].
    eapply Forall_impl; [exact Hall|].
    intros z Hyz. exact (NamesFacts.str_lt_trans _ _ _ Hxy Hyz).
Qed.

Lemma sorted_strongly (l : list (string * V)) :
  is_dict l → StronglySorted name_lt (sorted value_ltb l).
Proof.
  unfold is_dict. induction l as [|x l IH]; simpl; intros Hnd.
  { constructor. }
  apply NoDup_cons in Hnd as [Hnotin Hnd].
  apply insert_sorted_strongly; [|by apply IH].
  by rewrite sorted_perm.
Qed.

Lemma sorted_permutation_invariant (l1 l2 : list (string * V)) :
  is_dict l1 → l1 ≡ₚ l2 → sorted value_ltb l1 = sorted value_ltb l2.
Proof.
  intros Hd1 Hperm.
  assert (is_dict l2) as Hd2.
  { unfold is_dict in *. by rewrite <- Hperm. }
  apply (StronglySorted_unique_strong name_lt).
  - intros x y _ _ Hxy Hyx. destruct (NamesFacts.str_lt_asym _ _ Hxy Hyx).
  - by apply sorted_strongly.
  - by apply sorted_strongly.
  - by rewrite !sorted_perm.
Qed.

End SortedFacts.

(** ** One call of the wrapper *)

Section WrapperFacts.

Context {V : Type} `{Countable V}.
Context {R E W : Type}.

Variable value_ltb : V → V → bool.
Variable KeyError : E.

Implicit Types (c : dict V R) (args : list V) (kwargs : list (string * V)).
Implicit Types (now : Z) (e : entry R).

Local Abbreviation key := (cache_key value_ltb).
Local Abbreviation wrap := (wrapper value_ltb KeyError).

(** Unfolds the monadic steps of one call down to the lookups. *)
Ltac run_wrapper :=
  unfold wrapper, wrapper_spec, bind, dict_contains, dict_getitem,
    dict_setitem, call, ret, counted; simpl.

Lemma is_fresh_true c k now :
  is_fresh c k now = true ↔ ∃ e, c !! k = Some e ∧ now < expiry e.
Proof.
  unfold is_fresh. destruct (c !! k) as [e|]; split.
  - intros Hf. exists e. split; [done|].
    destruct (Z.geb_spec now (expiry e)); [done | lia].
  - intros (e' & [= <-] & Hlt).
    destruct (Z.geb_spec now (expiry e)); [lia | done].
  - done.
  - intros (? & ? & _). done.
Qed.

Lemma is_fresh_false c k now :
  is_fresh c k now = false ↔
  c !! k = None ∨ ∃ e, c !! k = Some e ∧ expiry e ≤ now.
Proof.
  unfold is_fresh. destruct (c !! k) as [e|]; split.
  - intros Hf. right. exists e. split; [done|].
    destruct (Z.geb_spec now (expiry e)); [lia | done].
  - intros [|(e' & [= <-] & Hle)]; [done|].
    destruct (Z.geb_spec now (expiry e)); [done | lia].
  - by left.
  - done.
Qed.

Lemma geb_false now e : now < expiry e → (now >=? expiry e) = false.
Proof. intros. destruct (Z.geb_spec now (expiry e)); [lia | done]. Qed.

Lemma geb_true now e : expiry e ≤ now → (now >=? expiry e) = true.
Proof. intros. destruct (Z.geb_spec now (expiry e)); [done | lia]. Qed.

Lemma wrapper_hit (function : callable V R E W) now args kwargs c (w : W) e :
  c !! key args kwargs = Some e → now < expiry e →
  wrap function now args kwargs (c, w) = (Returned (result e), (c, w)).
Proof.
  intros Hk Hlt%geb_false. run_wrapper.
  repeat (progress (simpl; rewrite ?Hk, ?Hlt)). done.
Qed.

Lemma wrapper_fetch_returned (function : callable V R E W) now args kwargs c
    (w w' : W) (r : R) :
  is_fresh c (key args kwargs) now = false →
  function args kwargs w = (Returned r, w') →
  wrap function now args kwargs (c, w) =
    (Returned r, (<[key args kwargs := Entry r (now + timedelta 86400)]> c, w')).
Proof.
  intros Hstale Hf. apply is_fresh_false in Hstale.
  run_wrapper. destruct Hstale as [Hk | (e & Hk & Hle%geb_true)].
  - repeat (progress (simpl; rewrite ?Hk, ?Hf)). done.
  - repeat (progress (simpl; rewrite ?Hk, ?Hle, ?Hf, ?lookup_insert_eq)). done.
Qed.

Lemma wrapper_fetch_raised (function : callable V R E W) now args kwargs c
    (w w' : W) (err : E) :
  is_fresh c (key args kwargs) now = false →
  function args kwargs w = (Raised err, w') →
  wrap function now args kwargs (c, w) = (Raised err, (c, w')).
Proof.
  intros Hstale Hf. apply is_fresh_false in Hstale.
  run_wrapper. destruct Hstale as [Hk | (e & Hk & Hle%geb_true)].
  - repeat (progress (simpl; rewrite ?Hk, ?Hf)). done.
  - repeat (progress (simpl; rewrite ?Hk, ?Hle, ?Hf)). done.
Qed.

Lemma counted_returned (function : callable V R E W) args kwargs (n : nat)
    (w w' : W) (o : outcome E R) :
  function args kwargs w = (o, w') →
  counted function args kwargs (n, w) = (o, (S n, w')).
Proof. intros Hf. unfold counted. simpl. by rewrite Hf. Qed.

Lemma counted_inv (function : callable V R E W) args kwargs (n n' : nat)
    (w w' : W) (o : outcome E R) :
  counted function args kwargs (n, w) = (o, (n', w')) →
  function args kwargs w = (o, w') ∧ n' = S n.
Proof.
  unfold counted. simpl. destruct (function args kwargs w) as [o0 w0].
  by intros [= -> <- ->].
Qed.

(** Every call falls under one of three cases. *)
Lemma wrapper_cases (function : callable V R E W) now args kwargs c (w : W) :
  (∃ e, c !! key args kwargs = Some e ∧ now < expiry e ∧
        wrap function now args kwargs (c, w) = (Returned (result e), (c, w))) ∨
  (∃ r w', is_fresh c (key args kwargs) now = false ∧
        function args kwargs w = (Returned r, w') ∧
        wrap function now args kwargs (c, w) =
          (Returned r, (<[key args kwargs := Entry r (now + timedelta 86400)]> c, w'))) ∨
  (∃ err w', is_fresh c (key args kwargs) now = false ∧
        function args kwargs w = (Raised err, w') ∧
        wrap function now args kwargs (c, w) = (Raised err, (c, w'))).
Proof.
  destruct (is_fresh c (key args kwargs) now) eqn:Hfresh.
  - left. apply is_fresh_true in Hfresh as (e & Hk & Hlt).
    exists e. eauto using wrapper_hit.
  - right. destruct (function args kwargs w) as [[r|err] w'] eqn:Hf.
    + left. exists r, w'. eauto using wrapper_fetch_returned.
    + right. exists err, w'. eauto using wrapper_fetch_raised.
Qed.

(** A call touches no key but its own and removes nothing. *)
Lemma wrapper_frame (function : callable V R E W) now args kwargs c (w : W) :
  let c' := (wrap function now args kwargs (c, w)).2.1 in
  (∀ k, k ≠ key args kwargs → c' !! k = c !! k) ∧ dom c ⊆ dom c'.
Proof.
  destruct (wrapper_cases function now args kwargs c w)
    as [(e & Hk & Hlt & Hrun)
       | [(r & w' & Hstale & Hf & Hrun) | (err & w' & Hstale & Hf & Hrun)]];
    rewrite Hrun; simpl; try done.
  split.
  - intros k Hne. by rewrite lookup_insert_ne.
  - rewrite dom_insert_L. set_solver.
Qed.

End WrapperFacts.

(** ** Calls of a function that counts its invocations *)

Section CountedFacts.

Context {V : Type} `{Countable V}.
Context {R E W : Type}.

Variable value_ltb : V → V → bool.
Variable KeyError : E.

Implicit Types (c : dict V R) (args : list V) (kwargs : list (string * V)).

Local Abbreviation key := (cache_key value_ltb).
Local Abbreviation wrap := (wrapper value_ltb KeyError).

(** A call that finds no usable entry invokes the function once; its
    outcome is the function's, and the cache is written only on a
    return. *)
Lemma wrapper_fetch_counted (function : callable V R E W) now args kwargs c
    (w : W) (n : nat) :
  is_fresh c (key args kwargs) now = false →
  ∃ (o : outcome E R) (w' : W),
    function args kwargs w = (o, w') ∧
    wrap (counted function) now args kwargs (c, (n, w)) =
      (o, (match o with
           | Returned r =>
               <[key args kwargs := Entry r (now + timedelta 86400)]> c
           | Raised _ => c
           end, (S n, w'))).
Proof.
  intros Hstale.
  destruct (function args kwargs w) as [o w'] eqn:Hf.
  exists o, w'. split; [done|].
  pose proof (counted_returned _ _ _ n _ _ _ Hf) as Hcf.
  destruct o as [r|err]; simpl.
  - by apply wrapper_fetch_returned.
  - by apply wrapper_fetch_raised.
Qed.

(** A fetch that returned is followed by a hit for every call that
    derives the same key before the time to live has elapsed. *)
Lemma fetch_then_hit (function : callable V R E W) args kwargs kwargs' c
    (w : W) (n : nat) (t1 t2 : Z) (r : R) (c1 : dict V R) (n1 : nat) (w1 : W) :
  key args kwargs = key args kwargs' →
  is_fresh c (key args kwargs) t1 = false →
  wrap (counted function) t1 args kwargs (c, (n, w)) =
    (Returned r, (c1, (n1, w1))) →
  t2 < t1 + timedelta 86400 →
  n1 = S n ∧
  wrap (counted function) t2 args kwargs' (c1, (n1, w1)) =
    (Returned r, (c1, (n1, w1))) ∧
  result <$> c1 !! key args kwargs = Some r.
Proof.
  intros Hkey Hstale Hfirst Hsoon.
  destruct (wrapper_fetch_counted function t1 args kwargs c w n Hstale)
    as (o & w' & Hf & Hrun).
  rewrite Hrun in Hfirst. injection Hfirst as -> <- <- <-.
  split; [done|]. rewrite lookup_insert_eq. split; [|done].
  apply wrapper_hit with (e := Entry r (t1 + timedelta 86400)); [|done].
  rewrite <- Hkey. apply lookup_insert_eq.
Qed.

(** Two calls under different keys, neither in the cache: each invokes
    the function, and each return is stored under its own key. *)
Lemma two_fetches (function : callable V R E W) (args1 args2 : list V)
    (kwargs1 kwargs2 : list (string * V)) c (w : W) (n : nat) (t1 t2 : Z) :
  key args1 kwargs1 ≠ key args2 kwargs2 →
  c !! key args1 kwargs1 = None →
  c !! key args2 kwargs2 = None →
  ∃ (o1 o2 : outcome E R) (w1 w2 : W) (c1 c2 : dict V R),
    wrap (counted function) t1 args1 kwargs1 (c, (n, w)) = (o1, (c1, (S n, w1))) ∧
    wrap (counted function) t2 args2 kwargs2 (c1, (S n, w1)) =
      (o2, (c2, (S (S n), w2))) ∧
    ∀ r1 r2, o1 = Returned r1 → o2 = Returned r2 →
      c2 = <[key args2 kwargs2 := Entry r2 (t2 + timedelta 86400)]>
             (<[key args1 kwargs1 := Entry r1 (t1 + timedelta 86400)]> c).
Proof.
  intros Hkeys Hnone1 Hnone2.
  destruct (wrapper_fetch_counted function t1 args1 kwargs1 c w n)
    as (o1 & w1 & Hf1 & Hrun1); [apply is_fresh_false; by left|].
  set (c1 := match o1 with
             | Returned r => <[key args1 kwargs1 := Entry r (t1 + timedelta 86400)]> c
             | Raised _ => c
             end) in *.
  assert (c1 !! key args2 kwargs2 = None) as Hnone2'.
  { subst c1. destruct o1; [by rewrite lookup_insert_ne | done]. }
  destruct (wrapper_fetch_counted function t2 args2 kwargs2 c1 w1 (S n))
    as (o2 & w2 & Hf2 & Hrun2); [apply is_fresh_false; by left|].
  eexists o1, o2, w1, w2, c1, _. split; [exact Hrun1|]. split; [exact Hrun2|].
  intros r1 r2 -> ->. done.
Qed.

End CountedFacts.

(** ** Hits, expiry, errors and the time to live *)

Section CallProperties.

Context {V : Type} `{Countable V}.
Context {R E W : Type}.

Variable value_ltb : V → V → bool.
Variable KeyError : E.

Implicit Types (c : dict V R) (args : list V) (kwargs : list (string * V)).
Implicit Types (now : Z) (e : entry R) (n : nat) (w : W).

Local Abbreviation key := (cache_key value_ltb).
Local Abbreviation wrap := (wrapper value_ltb KeyError).

(** Splits on the three cases of a call and rewrites the run with the
    case's equation. *)
Ltac wrapper_case function now args kwargs c w :=
  let e := fresh "e" in
  let r := fresh "r" in
  let err := fresh "err" in
  let w' := fresh "w'" in
  let Hk := fresh "Hk" in
  let Hlt := fresh "Hlt" in
  let Hstale := fresh "Hstale" in
  let Hf := fresh "Hf" in
  let Hrun := fresh "Hrun" in
  destruct (wrapper_cases value_ltb KeyError function now args kwargs c w)
    as [(e & Hk & Hlt & Hrun)
       | [(r & w' & Hstale & Hf & Hrun) | (err & w' & Hstale & Hf & Hrun)]].

(** C1 (idempotent cache hit).  A call that finds no usable entry and
    whose fetch returns [r] invokes the wrapped function once; a second
    call with the same arguments made before the time to live has elapsed
    returns the stored [r] and invokes nothing: the invocation counter
    stands at one more than before the two calls, and the second call
    leaves cache and world as they were. *)
Theorem idempotent_cache_hit (function : callable V R E W) args kwargs
    c w n (t1 t2 : Z) (r : R) c1 (n1 : nat) (w1 : W) :
  is_fresh c (key args kwargs) t1 = false →
  wrap (counted function) t1 args kwargs (c, (n, w)) =
    (Returned r, (c1, (n1, w1))) →
  t2 < t1 + timedelta 86400 →
  n1 = S n ∧
  wrap (counted function) t2 args kwargs (c1, (n1, w1)) =
    (Returned r, (c1, (n1, w1))) ∧
  result <$> c1 !! key args kwargs = Some r.
Proof.
  intros Hstale Hfirst Hsoon.
  by apply (fetch_then_hit value_ltb KeyError function args kwargs kwargs c w n t1).
Qed.

(** C2 (expiry triggers a refetch, boundary at [now >= expiry]).  With
    the key present: from the expiry instant on, the wrapped function is
    invoked once more; when it returns, the entry is overwritten with the
    new result and the expiry [now + 86400 s] and the new result is
    returned.  Strictly before the expiry instant the stored value is
    returned and the function is not invoked. *)
Theorem expiry_triggers_refetch (function : callable V R E W) now args
    kwargs c w n e :
  c !! key args kwargs = Some e →
  (expiry e ≤ now →
     ∃ (o : outcome E R) (w' : W),
       function args kwargs w = (o, w') ∧
       wrap (counted function) now args kwargs (c, (n, w)) =
         (o, (match o with
              | Returned r =>
                  <[key args kwargs := Entry r (now + timedelta 86400)]> c
              | Raised _ => c
              end, (S n, w')))) ∧
  (now < expiry e →
     wrap (counted function) now args kwargs (c, (n, w)) =
       (Returned (result e), (c, (n, w)))).
Proof.
  intros Hpresent. split.
  - intros Hexpired.
    assert (is_fresh c (key args kwargs) now = false) as Hstale
      by (apply is_fresh_false; eauto).
    destruct (function args kwargs w) as [o w'] eqn:Hf.
    exists o, w'. split; [done|].
    pose proof (counted_returned _ _ _ n _ _ _ Hf) as Hcf.
    destruct o as [r|err].
    + by apply wrapper_fetch_returned.
    + by apply wrapper_fetch_raised.
  - intros Hbefore. by apply wrapper_hit.
Qed.

(** C4 (error atomicity, verbatim propagation).  When a call invokes the
    wrapped function and the function raises [err], the call raises the
    same [err] and leaves the cache exactly as it was; a later call with
    the same arguments invokes the function again, whatever comes of it. *)
Theorem error_not_memoized (function : callable V R E W) args kwargs
    c w (w1 : W) n (t1 : Z) (err : E) :
  is_fresh c (key args kwargs) t1 = false →
  function args kwargs w = (Raised err, w1) →
  wrap (counted function) t1 args kwargs (c, (n, w)) =
    (Raised err, (c, (S n, w1))) ∧
  ∀ t2 : Z, t1 ≤ t2 →
    is_fresh c (key args kwargs) t2 = false ∧
    ∃ (o : outcome E R) (c2 : dict V R) (w2 : W),
      function args kwargs w1 = (o, w2) ∧
      wrap (counted function) t2 args kwargs (c, (S n, w1)) =
        (o, (c2, (S (S n), w2))).
Proof.
  intros Hstale Hf. split.
  - apply wrapper_fetch_raised; [done|]. by apply counted_returned.
  - intros t2 Hlater.
    assert (is_fresh c (key args kwargs) t2 = false) as Hstale2.
    { apply is_fresh_false. apply is_fresh_false in Hstale.
      destruct Hstale as [?|(e & ? & ?)]; [by left|].
      right. exists e. split; [done | lia]. }
    split; [done|].
    destruct (function args kwargs w1) as [o w2] eqn:Hf2.
    pose proof (counted_returned _ _ _ (S n) _ _ _ Hf2) as Hcf.
    destruct o as [r|err2].
    + eexists _, _, _. split; [done|]. by apply wrapper_fetch_returned.
    + eexists _, _, _. split; [done|]. by apply wrapper_fetch_raised.
Qed.

(** C8 (fixed time to live of 86,400 seconds).  After any call, every
    entry of the cache is either the entry that was there before or the
    entry of the call's own key with expiry exactly [now] plus 86,400
    seconds (86,400,000,000 microseconds); and both writes, the insert on
    a miss and the overwrite on expiry, store the returned result with
    that expiry. *)
Theorem fixed_ttl (function : callable V R E W) now args kwargs c w
    (o : outcome E R) c' (w' : W) :
  wrap function now args kwargs (c, w) = (o, (c', w')) →
  (∀ k e', c' !! k = Some e' →
     c !! k = Some e' ∨
     (k = key args kwargs ∧ expiry e' = now + 86400 * 1000000)) ∧
  (∀ r, o = Returned r → c !! key args kwargs = None →
     c' !! key args kwargs = Some (Entry r (now + 86400 * 1000000))) ∧
  (∀ r e, o = Returned r → c !! key args kwargs = Some e → expiry e ≤ now →
     c' !! key args kwargs = Some (Entry r (now + 86400 * 1000000))).
Proof.
  intros Hcall.
  wrapper_case function now args kwargs c w;
    rewrite Hrun in Hcall; injection Hcall as <- <- <-.
  - split; [by left|]. split.
    + intros r _ Hnone. congruence.
    + intros r e' _ Hsome Hle.
      assert (e' = e) as -> by congruence. lia.
  - split; [|split].
    + intros k e' Hk. destruct (decide (key args kwargs = k)) as [<-|Hne].
      * rewrite lookup_insert_eq in Hk. injection Hk as <-. by right.
      * rewrite lookup_insert_ne in Hk by done. by left.
    + intros r' [= <-] _. by rewrite lookup_insert_eq.
    + intros r' e [= <-] _ _. by rewrite lookup_insert_eq.
  - split; [by left|]. split; intros; discriminate.
Qed.

(** C3 (mutate-then-reread equivalence).  On every state the wrapper,
    which re-reads the cache after overwriting an expired entry, computes
    the same outcome, cache and world as the reading of the contract that
    returns the computed result directly; in particular the re-read never
    misses. *)
Theorem reread_equals_direct (function : callable V R E W) now args kwargs
    (s : dict V R * W) :
  wrap function now args kwargs s = wrapper_spec value_ltb function now args kwargs s.
Proof.
  destruct s as [c w].
  destruct (c !! key args kwargs) as [e|] eqn:Hk;
    [destruct (now >=? expiry e) eqn:Hge|];
    destruct (function args kwargs w) as [[r|err] w'] eqn:Hf;
    unfold wrapper, wrapper_spec, bind, dict_contains, dict_getitem,
      dict_setitem, call, ret;
    repeat (progress (simpl; rewrite ?Hk, ?Hge, ?Hf, ?lookup_insert_eq));
    reflexivity.
Qed.

End CallProperties.

(** ** Keys: keyword order and positional arguments *)

Section KeyProperties.

Context {V : Type} `{Countable V}.
Context {R E W : Type}.

Variable value_ltb : V → V → bool.
Variable KeyError : E.

Implicit Types (c : dict V R) (args : list V) (kwargs : list (string * V)).
Implicit Types (n : nat) (w : W).

Local Abbreviation key := (cache_key value_ltb).
Local Abbreviation wrap := (wrapper value_ltb KeyError).

(** C5 (keyword order does not matter).  Two calls with the same
    positional arguments and the same keyword bindings written in a
    different order derive equal keys; so when the first fetches and
    returns, the second, made before the time to live has elapsed, is
    served from the same entry and the function has been invoked once
    across both. *)
Theorem keyword_order_invariance (function : callable V R E W) args
    (kwargs1 kwargs2 : list (string * V)) c w n (t1 t2 : Z) (r : R)
    (c1 : dict V R) (n1 : nat) (w1 : W) :
  is_dict kwargs1 →
  kwargs1 ≡ₚ kwargs2 →
  key args kwargs1 = key args kwargs2 ∧
  (is_fresh c (key args kwargs1) t1 = false →
   wrap (counted function) t1 args kwargs1 (c, (n, w)) =
     (Returned r, (c1, (n1, w1))) →
   t2 < t1 + timedelta 86400 →
   n1 = S n ∧
   wrap (counted function) t2 args kwargs2 (c1, (n1, w1)) =
     (Returned r, (c1, (n1, w1)))).
Proof.
  intros Hdict Hperm.
  assert (key args kwargs1 = key args kwargs2) as Hkey.
  { unfold cache_key. f_equal. by apply sorted_permutation_invariant. }
  split; [done|].
  intros Hstale Hfirst Hsoon.
  destruct (fetch_then_hit value_ltb KeyError function args kwargs1 kwargs2
              c w n t1 t2 r c1 n1 w1 Hkey Hstale Hfirst Hsoon)
    as (Hn & Hsecond & _).
  done.
Qed.

(** C6 (argument sensitivity).  Calls with different positional
    arguments derive different keys; when neither key is in the cache,
    each call invokes the function, and after both the cache holds one
    entry for each, with the result of its own fetch. *)
Theorem argument_sensitivity (function : callable V R E W)
    (args1 args2 : list V) (kwargs1 kwargs2 : list (string * V))
    c w (w1 w2 : W) n (t1 t2 : Z) (r1 r2 : R) :
  args1 ≠ args2 →
  key args1 kwargs1 ≠ key args2 kwargs2 ∧
  (c !! key args1 kwargs1 = None →
   c !! key args2 kwargs2 = None →
   function args1 kwargs1 w = (Returned r1, w1) →
   function args2 kwargs2 w1 = (Returned r2, w2) →
   let c1 := <[key args1 kwargs1 := Entry r1 (t1 + timedelta 86400)]> c in
   let c2 := <[key args2 kwargs2 := Entry r2 (t2 + timedelta 86400)]> c1 in
   wrap (counted function) t1 args1 kwargs1 (c, (n, w)) =
     (Returned r1, (c1, (S n, w1))) ∧
   wrap (counted function) t2 args2 kwargs2 (c1, (S n, w1)) =
     (Returned r2, (c2, (S (S n), w2))) ∧
   c2 !! key args1 kwargs1 = Some (Entry r1 (t1 + timedelta 86400)) ∧
   c2 !! key args2 kwargs2 = Some (Entry r2 (t2 + timedelta 86400))).
Proof.
  intros Hargs.
  assert (key args1 kwargs1 ≠ key args2 kwargs2) as Hkeys.
  { unfold cache_key. intros [= Heq _]. contradiction. }
  split; [done|].
  intros Hnone1 Hnone2 Hf1 Hf2 c1 c2. subst c1 c2.
  split; [|split; [|split]].
  - apply wrapper_fetch_returned.
    + apply is_fresh_false. by left.
    + by apply counted_returned.
  - apply wrapper_fetch_returned.
    + apply is_fresh_false. left. by rewrite lookup_insert_ne.
    + by apply counted_returned.
  - rewrite lookup_insert_ne by done. apply lookup_insert_eq.
  - apply lookup_insert_eq.
Qed.

End KeyProperties.

(** ** The store of dictionaries *)

Section DecoratorFacts.

Context {V : Type} `{Countable V}.
Context {R E W : Type}.

Variable value_ltb : V → V → bool.
Variable KeyError : E.

Implicit Types (h : list (dict V R)) (w : W) (wf : wrapped_func V R E W).
Implicit Types (now : Z) (args : list V) (kwargs : list (string * V)).
Implicit Types (calls : list (wrapped_func V R E W * Z * list V * list (string * V))).

Local Abbreviation call1 := (call_wrapped value_ltb KeyError).
Local Abbreviation run := (call_sequence value_ltb KeyError).

Lemma decorate_fresh (d : decorator) (func : callable V R E W) h :
  decorate d func h = (WrappedFunc func (length h), h ++ [∅]).
Proof. by destruct d. Qed.

(** A call writes to the dictionary of its closure only. *)
Lemma call_wrapped_other wf now args kwargs h w (l : nat) :
  wf_cache wf ≠ l →
  (call1 wf now args kwargs (h, w)).2.1 !! l = h !! l.
Proof.
  intros Hne. unfold call_wrapped. simpl.
  destruct (wrapper _ _ _ _ _ _ _) as [o [c' w']]. simpl.
  by apply list_lookup_insert_ne.
Qed.

(** A call never shrinks the set of keys of any dictionary. *)
Lemma call_wrapped_grows wf now args kwargs h w (l : nat) (c : dict V R) :
  h !! l = Some c →
  ∃ c', (call1 wf now args kwargs (h, w)).2.1 !! l = Some c' ∧ dom c ⊆ dom c'.
Proof.
  intros Hl. destruct (decide (wf_cache wf = l)) as [Heq|Hne].
  - pose proof (wrapper_frame value_ltb KeyError (wf_function wf) now args
                  kwargs c w) as [_ Hdom].
    unfold call_wrapped. simpl.
    rewrite Heq, (list_lookup_total_correct _ _ _ Hl).
    destruct (wrapper _ _ _ _ _ _ _) as [o [c' w']]. simpl in *.
    exists c'. split; [|done].
    apply list_lookup_insert_eq. by eapply lookup_lt_Some.
  - exists c. by rewrite call_wrapped_other.
Qed.

(** What a call does depends on the dictionary of its closure alone. *)
Lemma call_wrapped_local wf now args kwargs h h' w :
  h' !! wf_cache wf = h !! wf_cache wf →
  (call1 wf now args kwargs (h', w)).1 = (call1 wf now args kwargs (h, w)).1 ∧
  (call1 wf now args kwargs (h', w)).2.2 = (call1 wf now args kwargs (h, w)).2.2 ∧
  (call1 wf now args kwargs (h', w)).2.1 !! wf_cache wf =
    (call1 wf now args kwargs (h, w)).2.1 !! wf_cache wf.
Proof.
  intros Hagree. unfold call_wrapped. simpl.
  rewrite !list_lookup_total_alt, Hagree.
  destruct (wrapper _ _ _ _ _ _ _) as [o [c' w']]. simpl.
  split; [done|]. split; [done|].
  destruct (h !! wf_cache wf) as [c|] eqn:Hl.
  - rewrite !list_lookup_insert_eq; [done | by eapply lookup_lt_Some..].
  - rewrite !list_insert_ge; [congruence | by apply lookup_ge_None..].
Qed.

Lemma call_sequence_other calls h w (l : nat) :
  Forall (λ call, wf_cache call.1.1.1 ≠ l) calls →
  (run calls (h, w)).2.1 !! l = h !! l.
Proof.
  revert h w. induction calls as [|[[[wf now] args] kwargs] calls IH];
    intros h w Hall; simpl; [done|].
  apply Forall_cons in Hall as [Hne Hall]. simpl in Hne.
  pose proof (call_wrapped_other wf now args kwargs h w l Hne) as Hstep.
  destruct (call_wrapped _ _ _ _ _ _ _) as [o [h1 w1]]. simpl in Hstep.
  specialize (IH h1 w1 Hall).
  destruct (call_sequence _ _ _ _) as [os [h2 w2]]. simpl in *. congruence.
Qed.

Lemma call_sequence_grows calls h w (l : nat) (c : dict V R) :
  h !! l = Some c →
  ∃ c', (run calls (h, w)).2.1 !! l = Some c' ∧ dom c ⊆ dom c'.
Proof.
  revert h w c. induction calls as [|[[[wf now] args] kwargs] calls IH];
    intros h w c Hl; simpl; [by exists c|].
  destruct (call_wrapped_grows wf now args kwargs h w l c Hl)
    as (c1 & Hl1 & Hdom1).
  destruct (call_wrapped _ _ _ _ _ _ _) as [o [h1 w1]]. simpl in Hl1.
  destruct (IH h1 w1 c1 Hl1) as (c2 & Hl2 & Hdom2).
  destruct (call_sequence _ _ _ _) as [os [h2 w2]]. simpl in *.
  exists c2. split; [done|]. set_solver.
Qed.

Lemma call_sequence_local calls h h' w (l : nat) :
  Forall (λ call, wf_cache call.1.1.1 = l) calls →
  h' !! l = h !! l →
  (run calls (h', w)).1 = (run calls (h, w)).1 ∧
  (run calls (h', w)).2.2 = (run calls (h, w)).2.2 ∧
  (run calls (h', w)).2.1 !! l = (run calls (h, w)).2.1 !! l.
Proof.
  revert h h' w. induction calls as [|[[[wf now] args] kwargs] calls IH];
    intros h h' w Hall Hagree; simpl; [done|].
  apply Forall_cons in Hall as [Hl Hall]. simpl in Hl. subst l.
  destruct (call_wrapped_local wf now args kwargs h h' w Hagree)
    as (Ho & Hw & Hh).
  destruct (call_wrapped _ _ _ _ _ _ (h', w)) as [o' [h1' w1']].
  destruct (call_wrapped _ _ _ _ _ _ (h, w)) as [o [h1 w1]].
  simpl in Ho, Hw, Hh. subst o' w1'.
  destruct (IH h1 h1' w1 Hall Hh) as (Hos & Hws & Hhs).
  destruct (call_sequence _ _ _ (h1', w1)) as [os' [h2' w2']].
  destruct (call_sequence _ _ _ (h1, w1)) as [os [h2 w2]].
  simpl in *. by subst.
Qed.

End DecoratorFacts.

(** ** Isolation of the caches and the frame of a call *)

Section StoreProperties.

Context {V : Type} `{Countable V}.
Context {R E W : Type}.

Variable value_ltb : V → V → bool.
Variable KeyError : E.

Implicit Types (h : list (dict V R)) (w : W) (c : dict V R).
Implicit Types (now : Z) (args : list V) (kwargs : list (string * V)).
Implicit Types (calls : list (wrapped_func V R E W * Z * list V * list (string * V))).

Local Abbreviation key := (cache_key value_ltb).
Local Abbreviation wrap := (wrapper value_ltb KeyError).
Local Abbreviation run := (call_sequence value_ltb KeyError).

(** C7 (cache isolation).  Each decorator allocates a dictionary at a
    location that was not in the store, initially empty, so two wrapped
    functions hold different dictionaries.  For either of them, no
    sequence of its calls modifies the dictionary of the other, and
    nothing the calls return or store depends on what the other
    dictionary contains. *)
Theorem cache_isolation (d1 d2 : decorator) (f1 f2 : callable V R E W)
    (h0 : list (dict V R)) :
  let r1 := decorate d1 f1 h0 in
  let r2 := decorate d2 f2 r1.2 in
  wf_cache r1.1 ≠ wf_cache r2.1 ∧
  h0 !! wf_cache r1.1 = None ∧
  r1.2 !! wf_cache r2.1 = None ∧
  r2.2 !! wf_cache r1.1 = Some ∅ ∧
  r2.2 !! wf_cache r2.1 = Some ∅ ∧
  ∀ mine other : wrapped_func V R E W,
    (mine = r1.1 ∧ other = r2.1) ∨ (mine = r2.1 ∧ other = r1.1) →
    ∀ calls h h' w,
      Forall (λ call, call.1.1.1 = mine) calls →
      h' !! wf_cache mine = h !! wf_cache mine →
      (run calls (h, w)).2.1 !! wf_cache other = h !! wf_cache other ∧
      (run calls (h', w)).1 = (run calls (h, w)).1 ∧
      (run calls (h', w)).2.2 = (run calls (h, w)).2.2 ∧
      (run calls (h', w)).2.1 !! wf_cache mine =
        (run calls (h, w)).2.1 !! wf_cache mine.
Proof.
  intros r1 r2. subst r1 r2. rewrite !decorate_fresh. simpl.
  rewrite length_app. simpl.
  split; [lia|].
  split; [apply lookup_ge_None; lia|].
  split; [apply lookup_ge_None; rewrite length_app; simpl; lia|].
  split.
  { rewrite lookup_app_l by (rewrite length_app; simpl; lia).
    by rewrite list_lookup_middle. }
  split.
  { rewrite list_lookup_middle; [done | by rewrite length_app]. }
  intros mine other Hwho calls h h' w Hcalls Hagree.
  assert (wf_cache mine ≠ wf_cache other) as Hne.
  { destruct Hwho as [[-> ->] | [-> ->]]; simpl; lia. }
  split.
  - apply call_sequence_other.
    eapply Forall_impl; [exact Hcalls|]. intros call ->. done.
  - apply call_sequence_local; [|done].
    eapply Forall_impl; [exact Hcalls|]. intros call ->. done.
Qed.

(** C9 (frame condition).  One call leaves the entries under every key
    other than its own as they were and removes no key; over any sequence
    of calls the set of keys of a dictionary only grows. *)
Theorem frame_condition (function : callable V R E W) now args kwargs c w
    calls h (w0 : W) (l : nat) (c0 : dict V R) :
  (let c' := (wrap function now args kwargs (c, w)).2.1 in
   (∀ k, k ≠ key args kwargs → c' !! k = c !! k) ∧ dom c ⊆ dom c') ∧
  (h !! l = Some c0 →
   ∃ c0', (run calls (h, w0)).2.1 !! l = Some c0' ∧ dom c0 ⊆ dom c0').
Proof.
  split.
  - apply wrapper_frame.
  - apply call_sequence_grows.
Qed.

End StoreProperties.

(** ** Positional and keyword passing of the same parameter *)

(** C10 (no normalization of positional against keyword passing).  There
    are two calls of [get_commander_data] that bind every parameter to the
    same value, one passing [bracket] by position and the other by name,
    whose keys differ: from an empty cache the two calls invoke the
    function twice and, when both return, leave two entries. *)
Theorem positional_and_keyword_keys_differ :
  ∃ (args1 args2 : list pyval) (kwargs1 kwargs2 : list (string * pyval))
    (bound : list (string * pyval)),
    bind_arguments get_commander_data_params args1 kwargs1 = Some bound ∧
    bind_arguments get_commander_data_params args2 kwargs2 = Some bound ∧
    cache_key pyval_ltb args1 kwargs1 ≠ cache_key pyval_ltb args2 kwargs2 ∧
    ∀ (R E W : Type) (KeyError : E) (function : callable pyval R E W)
      (w : W) (n : nat) (t1 t2 : Z),
      let run1 :=
        wrapper pyval_ltb KeyError (counted function) t1 args1 kwargs1 (∅, (n, w)) in
      let run2 :=
        wrapper pyval_ltb KeyError (counted function) t2 args2 kwargs2 run1.2 in
      run2.2.2.1 = S (S n) ∧
      ∀ r1 r2, run1.1 = Returned r1 → run2.1 = Returned r2 →
        run2.2.1 !! cache_key pyval_ltb args1 kwargs1 =
          Some (Entry r1 (t1 + timedelta 86400)) ∧
        run2.2.1 !! cache_key pyval_ltb args2 kwargs2 =
          Some (Entry r2 (t2 + timedelta 86400)) ∧
        size run2.2.1 = 2%nat.
Proof.
  exists [PyObj 1; PyStr "atraxa"; PyStr "exhibition"],
         [PyObj 1; PyStr "atraxa"],
         [],
         [("bracket"%string, PyStr "exhibition")].
  eexists. split; [reflexivity|]. split; [reflexivity|].
  assert (cache_key pyval_ltb [PyObj 1; PyStr "atraxa"; PyStr "exhibition"] [] ≠
          cache_key pyval_ltb [PyObj 1; PyStr "atraxa"]
            [("bracket"%string, PyStr "exhibition")]) as Hkeys
    by (intros [=]).
  split; [exact Hkeys|].
  intros R E W KeyError function w n t1 t2.
  destruct (two_fetches pyval_ltb KeyError function _ _ _ _ ∅ w n t1 t2 Hkeys)
    as (o1 & o2 & w1 & w2 & c1 & c2 & Hrun1 & Hrun2 & Hstored);
    [apply lookup_empty..|].
  intros run1 run2. subst run1 run2.
  rewrite Hrun1. cbn [fst snd]. rewrite Hrun2. cbn [fst snd].
  split; [done|].
  intros r1 r2 -> ->. rewrite (Hstored r1 r2 eq_refl eq_refl).
  split; [|split].
  - rewrite lookup_insert_ne by done. apply lookup_insert_eq.
  - apply lookup_insert_eq.
  - rewrite map_size_insert_None by (rewrite lookup_insert_ne by done; apply lookup_empty).
    rewrite map_size_insert_None by apply lookup_empty.
    by rewrite map_size_empty.
Qed.

(** ** The properties on sample runs *)

Section Witnesses.

Import Samples.

Local Abbreviation KeyError := "KeyError"%string.
Local Abbreviation key := (cache_key pyval_ltb).

(** The scenario of the test plan: [wrapped("ana")], [wrapped("ana")]
    again, then [wrapped("bob")], with the fetch count after each call. *)
Example scenario_ana_ana_bob :
  let run1 := wrapped 0 ana [] (∅, (0%nat, 0%nat)) in
  let run2 := wrapped 1 ana [] run1.2 in
  let run3 := wrapped 2 bob [] run2.2 in
  (run1.1, run1.2.2.1) = (Returned (PyStr "ana", 0%nat), 1%nat) ∧
  (run2.1, run2.2.2.1) = (Returned (PyStr "ana", 0%nat), 1%nat) ∧
  (run3.1, run3.2.2.1) = (Returned (PyStr "bob", 1%nat), 2%nat).
Proof. repeat split. Qed.

Lemma idempotent_cache_hit_witness :
  1%nat = 1%nat ∧
  wrapped 5 ana [] (cache_ana, (1%nat, 1%nat)) =
    (Returned (PyStr "ana", 0%nat), (cache_ana, (1%nat, 1%nat))) ∧
  result <$> cache_ana !! key ana [] = Some (PyStr "ana", 0%nat).
Proof.
  apply (idempotent_cache_hit pyval_ltb KeyError fetch ana [] ∅ 0%nat 0%nat
           0 5 (PyStr "ana", 0%nat) cache_ana 1%nat 1%nat).
  - reflexivity.
  - reflexivity.
  - reflexivity.
Defined.

Lemma expiry_triggers_refetch_witness :
  (∃ (o : outcome string (pyval * nat)) (w' : nat),
     fetch ana [] 1%nat = (o, w') ∧
     wrapped 86400000000 ana [] (cache_ana, (1%nat, 1%nat)) =
       (o, (match o with
            | Returned r =>
                <[key ana [] := Entry r (86400000000 + timedelta 86400)]> cache_ana
            | Raised _ => cache_ana
            end, (2%nat, w')))) ∧
  wrapped 86399999999 ana [] (cache_ana, (1%nat, 1%nat)) =
    (Returned (PyStr "ana", 0%nat), (cache_ana, (1%nat, 1%nat))).
Proof.
  split.
  - apply (expiry_triggers_refetch pyval_ltb KeyError fetch 86400000000 ana []
             cache_ana 1%nat 1%nat (Entry (PyStr "ana", 0%nat) 86400000000)).
    + reflexivity.
    + simpl. lia.
  - apply (expiry_triggers_refetch pyval_ltb KeyError fetch 86399999999 ana []
             cache_ana 1%nat 1%nat (Entry (PyStr "ana", 0%nat) 86400000000)).
    + reflexivity.
    + reflexivity.
Defined.

Lemma error_not_memoized_witness :
  wrapped 0 missing [] (∅, (0%nat, 0%nat)) =
    (Raised "not found"%string, (∅, (1%nat, 1%nat))) ∧
  ∃ (o : outcome string (pyval * nat)) (c2 : dict pyval (pyval * nat)) (w2 : nat),
    fetch missing [] 1%nat = (o, w2) ∧
    wrapped 5 missing [] (∅, (1%nat, 1%nat)) = (o, (c2, (2%nat, w2))).
Proof.
  destruct (error_not_memoized pyval_ltb KeyError fetch missing [] ∅ 0%nat
              1%nat 0%nat 0 "not found"%string) as [Hraise Hagain].
  - reflexivity.
  - reflexivity.
  - split; [exact Hraise|].
    destruct (Hagain 5) as [_ Hinvoke].
    + simpl. lia.
    + exact Hinvoke.
Defined.

Lemma keyword_order_invariance_witness :
  key ana y_then_x = key ana x_then_y ∧
  1%nat = 1%nat ∧
  wrapped 5 ana x_then_y (cache_ana_xy, (1%nat, 1%nat)) =
    (Returned (PyStr "ana", 0%nat), (cache_ana_xy, (1%nat, 1%nat))).
Proof.
  destruct (keyword_order_invariance pyval_ltb KeyError fetch ana y_then_x
              x_then_y ∅ 0%nat 0%nat 0 5 (PyStr "ana", 0%nat) cache_ana_xy
              1%nat 1%nat) as [Hkey Hhit].
  - unfold is_dict. simpl. apply NoDup_cons. split; [|apply NoDup_singleton].
    intros Hin%list_elem_of_singleton. discriminate.
  - apply Permutation_swap.
  - split; [exact Hkey|]. apply Hhit.
    + reflexivity.
    + reflexivity.
    + reflexivity.
Defined.

Lemma argument_sensitivity_witness :
  key ana [] ≠ key bob [] ∧
  wrapped 0 ana [] (∅, (0%nat, 0%nat)) =
    (Returned (PyStr "ana", 0%nat), (cache_ana, (1%nat, 1%nat))) ∧
  wrapped 5 bob [] (cache_ana, (1%nat, 1%nat)) =
    (Returned (PyStr "bob", 1%nat),
     (<[key bob [] := Entry (PyStr "bob", 1%nat) (5 + timedelta 86400)]> cache_ana,
      (2%nat, 2%nat))) ∧
  (<[key bob [] := Entry (PyStr "bob", 1%nat) (5 + timedelta 86400)]> cache_ana)
    !! key ana [] = Some (Entry (PyStr "ana", 0%nat) (0 + timedelta 86400)) ∧
  (<[key bob [] := Entry (PyStr "bob", 1%nat) (5 + timedelta 86400)]> cache_ana)
    !! key bob [] = Some (Entry (PyStr "bob", 1%nat) (5 + timedelta 86400)).
Proof.
  destruct (argument_sensitivity pyval_ltb KeyError fetch ana bob [] [] ∅
              0%nat 1%nat 2%nat 0%nat 0 5 (PyStr "ana", 0%nat)
              (PyStr "bob", 1%nat)) as [Hkeys Hruns].
  - discriminate.
  - split; [exact Hkeys|]. apply Hruns.
    + reflexivity.
    + reflexivity.
    + reflexivity.
    + reflexivity.
Defined.

Lemma fixed_ttl_witness :
  (∀ k e', cache_ana !! k = Some e' →
     (∅ : dict pyval (pyval * nat)) !! k = Some e' ∨
     (k = key ana [] ∧ expiry e' = 0 + 86400 * 1000000)) ∧
  (∀ r, Returned (E := string) (PyStr "ana", 0%nat) = Returned r →
     (∅ : dict pyval (pyval * nat)) !! key ana [] = None →
     cache_ana !! key ana [] = Some (Entry r (0 + 86400 * 1000000))) ∧
  (∀ r e, Returned (E := string) (PyStr "ana", 0%nat) = Returned r →
     (∅ : dict pyval (pyval * nat)) !! key ana [] = Some e → expiry e ≤ 0 →
     cache_ana !! key ana [] = Some (Entry r (0 + 86400 * 1000000))).
Proof.
  apply (fixed_ttl pyval_ltb KeyError (counted fetch) 0 ana [] ∅ (0%nat, 0%nat)
           (Returned (PyStr "ana", 0%nat)) cache_ana (1%nat, 1%nat)).
  reflexivity.
Defined.

(** Calls of the commander method leave the dictionary of the combo method
    as it is, though the arguments are the same. *)
Lemma cache_isolation_witness :
  wf_cache commander.1 ≠ wf_cache combo.1 ∧
  (call_sequence pyval_ltb KeyError
     [(commander.1, 0, ana, []); (commander.1, 5, ana, [])]
     (combo.2, 0%nat)).2.1 !! wf_cache combo.1 = Some ∅.
Proof.
  destruct (cache_isolation pyval_ltb KeyError CommanderCache ComboCache
              fetch fetch []) as (Hne & _ & _ & _ & Hempty & Hiso).
  split; [exact Hne|].
  destruct (Hiso commander.1 combo.1 (or_introl (conj eq_refl eq_refl))
              [(commander.1, 0, ana, []); (commander.1, 5, ana, [])]
              combo.2 combo.2 0%nat) as [Hother _].
  - repeat constructor.
  - reflexivity.
  - rewrite Hother. exact Hempty.
Defined.

Lemma frame_condition_witness :
  ((∀ k, k ≠ key bob [] →
      (wrapper pyval_ltb KeyError fetch 5 bob [] (cache_ana, 1%nat)).2.1 !! k =
        cache_ana !! k) ∧
   dom cache_ana ⊆
     dom (wrapper pyval_ltb KeyError fetch 5 bob [] (cache_ana, 1%nat)).2.1) ∧
  ∃ c', (call_sequence pyval_ltb KeyError
           [(commander.1, 0, ana, []); (combo.1, 5, bob, [])]
           (combo.2, 0%nat)).2.1 !! 0%nat = Some c' ∧
        dom (∅ : dict pyval (pyval * nat)) ⊆ dom c'.
Proof.
  destruct (frame_condition pyval_ltb KeyError fetch 5 bob [] cache_ana 1%nat
              [(commander.1, 0, ana, []); (combo.1, 5, bob, [])]
              combo.2 0%nat 0%nat ∅) as [Hframe Hgrow].
  split; [exact Hframe|]. apply Hgrow. reflexivity.
Defined.

End Witnesses.

(** * Further properties of the cache *)

Section MoreCallProperties.

Context {V : Type} `{Countable V}.
Context {R E W : Type}.

Variable value_ltb : V → V → bool.
Variable KeyError : E.

Implicit Types (c : dict V R) (args : list V) (kwargs : list (string * V)).
Implicit Types (now : Z) (e : entry R) (n : nat) (w : W).

Local Abbreviation key := (cache_key value_ltb).
Local Abbreviation wrap := (wrapper value_ltb KeyError).


(** X2.  A call invokes the wrapped function at most once: not at all
    when the entry of its key is present and unexpired, once otherwise. *)
Theorem invocations_per_call (function : callable V R E W) now args kwargs
    c w n :
  (wrap (counted function) now args kwargs (c, (n, w))).2.2.1 =
    if is_fresh c (key args kwargs) now then n else S n.
Proof.
  destruct (is_fresh c (key args kwargs) now) eqn:Hfresh.
  - apply is_fresh_true in Hfresh as (e & Hk & Hlt).
    by rewrite (wrapper_hit value_ltb KeyError _ _ _ _ _ _ e Hk Hlt).
  - destruct (wrapper_fetch_counted value_ltb KeyError function now args
                kwargs c w n Hfresh) as (o & w' & _ & Hrun).
    by rewrite Hrun.
Qed.

(** X3.  Expiry only moves forward: after a call every entry that was in
    the cache is still there, either unchanged or rewritten with an expiry
    at least 86,400 seconds later than the one it had, whatever the clock
    read. *)
Theorem expiry_moves_forward (function : callable V R E W) now args kwargs
    c w (o : outcome E R) (c' : dict V R) (w' : W)
    (k : list V * list (string * V)) e :
  wrap function now args kwargs (c, w) = (o, (c', w')) →
  c !! k = Some e →
  ∃ e', c' !! k = Some e' ∧
        (e' = e ∨ expiry e + timedelta 86400 ≤ expiry e').
Proof.
  intros Hcall Hk.
  destruct (wrapper_cases value_ltb KeyError function now args kwargs c w)
    as [(e0 & Hk0 & Hlt & Hrun)
       | [(r & w1 & Hstale & Hf & Hrun) | (err & w1 & Hstale & Hf & Hrun)]];
    rewrite Hrun in Hcall; injection Hcall as <- <- <-; eauto.
  destruct (decide (key args kwargs = k)) as [<-|Hne].
  - rewrite lookup_insert_eq. eexists. split; [done|]. right. simpl.
    apply is_fresh_false in Hstale as [Hnone | (e1 & He1 & Hle)]; [congruence|].
    assert (e1 = e) as -> by congruence. lia.
  - rewrite lookup_insert_ne by done. eauto.
Qed.

(** X5.  The cache grows by one entry exactly when the key of the call was
    absent and the function returned; in every other case its size is
    unchanged.  Nothing is ever evicted. *)
Theorem cache_size_step (function : callable V R E W) now args kwargs
    c w (o : outcome E R) (c' : dict V R) (w' : W) :
  wrap function now args kwargs (c, w) = (o, (c', w')) →
  (c !! key args kwargs = None → ∀ r, o = Returned r → size c' = S (size c)) ∧
  (is_Some (c !! key args kwargs) → size c' = size c) ∧
  (∀ err, o = Raised err → size c' = size c).
Proof.
  intros Hcall.
  destruct (wrapper_cases value_ltb KeyError function now args kwargs c w)
    as [(e0 & Hk0 & Hlt & Hrun)
       | [(r & w1 & Hstale & Hf & Hrun) | (err & w1 & Hstale & Hf & Hrun)]];
    rewrite Hrun in Hcall; injection Hcall as <- <- <-.
  - split; [congruence|]. done.
  - split; [|split].
    + intros Hnone _ _. by apply map_size_insert_None.
    + intros [e He]. by apply map_size_insert_Some.
    + intros err [=].
  - split; [intros _ r [=]|]. done.
Qed.

End MoreCallProperties.

(** ** Keys and memoized values *)

Section MemoProperties.

Context {V : Type} `{Countable V}.
Context {R E W : Type}.

Variable value_ltb : V → V → bool.
Variable KeyError : E.

Implicit Types (c : dict V R) (args : list V) (kwargs : list (string * V)).
Implicit Types (now : Z) (w : W) (h : list (dict V R)).
Implicit Types (calls : list (wrapped_func V R E W * Z * list V * list (string * V))).

Local Abbreviation key := (cache_key value_ltb).
Local Abbreviation wrap := (wrapper value_ltb KeyError).
Local Abbreviation run := (call_sequence value_ltb KeyError).

(** X4.  No false sharing: two calls derive the same key exactly when
    their positional arguments are equal and their keyword arguments are
    the same bindings up to order. *)
Theorem cache_key_eq_iff args1 args2 (kwargs1 kwargs2 : list (string * V)) :
  is_dict kwargs1 →
  key args1 kwargs1 = key args2 kwargs2 ↔
  args1 = args2 ∧ kwargs1 ≡ₚ kwargs2.
Proof.
  intros Hdict. unfold cache_key. split.
  - intros [= -> Hsorted]. split; [done|].
    rewrite <- (sorted_perm value_ltb kwargs1), Hsorted.
    apply sorted_perm.
  - intros [-> Hperm]. f_equal. by apply sorted_permutation_invariant.
Qed.

Lemma call_wrapped_at (wf : wrapped_func V R E W) now args kwargs h w c :
  h !! wf_cache wf = Some c →
  call_wrapped value_ltb KeyError wf now args kwargs (h, w) =
    let r := wrap (wf_function wf) now args kwargs (c, w) in
    (r.1, (<[wf_cache wf := r.2.1]> h, r.2.2)).
Proof.
  intros Hl. unfold call_wrapped. simpl.
  rewrite (list_lookup_total_correct _ _ _ Hl).
  by destruct (wrapper _ _ _ _ _ _ _) as [o [c' w']].
Qed.

(** One call of a wrapped function of its arguments returns the value of
    the function and keeps the cache consistent. *)
Lemma consistent_call (function : callable V R E W)
    (g : list V → list (string * V) → R) now args kwargs c w :
  (∀ a kw w0, function a kw w0 = (Returned (g a kw), w0)) →
  (∀ a kw a' kw', key a kw = key a' kw' → g a kw = g a' kw') →
  cache_consistent value_ltb g c →
  ∃ c', wrap function now args kwargs (c, w) = (Returned (g args kwargs), (c', w)) ∧
        cache_consistent value_ltb g c'.
Proof.
  intros Hpure Hkey Hcons.
  destruct (wrapper_cases value_ltb KeyError function now args kwargs c w)
    as [(e0 & Hk0 & Hlt & Hrun)
       | [(r & w1 & Hstale & Hf & Hrun) | (err & w1 & Hstale & Hf & Hrun)]].
  - exists c. split; [|done]. rewrite Hrun. by rewrite (Hcons _ _ _ Hk0).
  - rewrite Hpure in Hf. injection Hf as <- <-.
    eexists. split; [exact Hrun|].
    intros a kw e He. destruct (decide (key args kwargs = key a kw)) as [Heq|Hne].
    + rewrite Heq, lookup_insert_eq in He. injection He as <-. simpl.
      by apply Hkey.
    + rewrite lookup_insert_ne in He by done. by eapply Hcons.
  - rewrite Hpure in Hf. discriminate.
Qed.

(** X6.  Memoization is sound for a function of its arguments.  When the
    wrapped function has no effect and always returns [g args kwargs], with
    [g] the same on calls that derive the same key, every call in any
    sequence of calls of the decorated function returns what the function
    itself would, whatever the clock reads, and the world is untouched. *)
Theorem decorated_pure_function (d : decorator) (function : callable V R E W)
    (g : list V → list (string * V) → R) (h0 : list (dict V R)) calls w :
  (∀ a kw w0, function a kw w0 = (Returned (g a kw), w0)) →
  (∀ a kw a' kw', key a kw = key a' kw' → g a kw = g a' kw') →
  Forall (λ call, call.1.1.1 = (decorate d function h0).1) calls →
  (run calls ((decorate d function h0).2, w)).1 =
    (λ call, Returned (g call.1.2 call.2)) <$> calls ∧
  (run calls ((decorate d function h0).2, w)).2.2 = w.
Proof.
  intros Hpure Hkey. rewrite decorate_fresh. simpl.
  assert (∀ calls h c,
            Forall (λ call, call.1.1.1 = WrappedFunc function (length h0)) calls →
            h !! length h0 = Some c →
            cache_consistent value_ltb g c →
            (run calls (h, w)).1 = (λ call, Returned (g call.1.2 call.2)) <$> calls ∧
            (run calls (h, w)).2.2 = w) as Hgen.
  { clear calls. induction calls as [|[[[wf now] args] kwargs] calls IH];
      intros h c Hall Hl Hcons; simpl; [done|].
    apply Forall_cons in Hall as [Hwf Hall]. simpl in Hwf. subst wf.
    rewrite (call_wrapped_at _ now args kwargs h w c) by done. simpl.
    destruct (consistent_call function g now args kwargs c w Hpure Hkey Hcons)
      as (c' & Hrun & Hcons').
    rewrite Hrun. simpl.
    destruct (IH (<[length h0 := c']> h) c' Hall) as [Hos Hw]; [|done|].
    { apply list_lookup_insert_eq. by eapply lookup_lt_Some. }
    destruct (call_sequence _ _ _ _) as [os [h2 w2]]. simpl in *.
    by subst. }
  intros Hall. eapply Hgen; [done| |].
  - by rewrite list_lookup_middle.
  - intros a kw e He. by rewrite lookup_empty in He.
Qed.

End MemoProperties.

(** * The client: card names, lists and links *)

Module TextFacts.
Import Text.

Local Open Scope string_scope.

Lemma append_cons (x : ascii) (a b : string) :
  String x a ++ b = String x (a ++ b).
Proof. reflexivity. Qed.

Lemma append_nil_l (b : string) : "" ++ b = b.
Proof. reflexivity. Qed.

Lemma append_assoc (a b c : string) : (a ++ b) ++ c = a ++ (b ++ c).
Proof.
  induction a as [|x a IH]; [done|]. rewrite !append_cons. by f_equal.
Qed.

Lemma append_nil_r (a : string) : a ++ "" = a.
Proof.
  induction a as [|x a IH]; [done|]. rewrite append_cons. by f_equal.
Qed.

Lemma chars_append (a b : string) :
  list_ascii_of_string (a ++ b) = (list_ascii_of_string a ++ list_ascii_of_string b)%list.
Proof.
  induction a as [|x a IH]; [done|]. rewrite append_cons. simpl. by f_equal.
Qed.

Lemma length_append (a b : string) :
  String.length (a ++ b) = (String.length a + String.length b)%nat.
Proof.
  induction a as [|x a IH]; [done|]. rewrite append_cons. simpl. by f_equal.
Qed.

Lemma lower_append (a b : string) : lower (a ++ b) = lower a ++ lower b.
Proof.
  induction a as [|x a IH]; [done|]. rewrite append_cons. simpl.
  rewrite append_cons. by f_equal.
Qed.

Lemma replace_append (old : ascii) (new a b : string) :
  replace old new (a ++ b) = replace old new a ++ replace old new b.
Proof.
  induction a as [|x a IH]; [done|]. rewrite append_cons. simpl.
  destruct (Ascii.eqb x old).
  - rewrite IH. symmetry. apply append_assoc.
  - rewrite append_cons. by f_equal.
Qed.

(** A lowered character is not an upper-case letter. *)
Lemma lower_char_not_upper (c : ascii) : is_upper (lower_char c) = false.
Proof.
  unfold lower_char. destruct (is_upper c) eqn:Hup; [|done].
  unfold is_upper in *. apply andb_prop in Hup as [Hlo Hhi].
  apply N.leb_le in Hlo, Hhi.
  rewrite N_ascii_embedding by lia.
  apply andb_false_intro2. apply N.leb_gt. lia.
Qed.

Lemma lower_char_id (c : ascii) : is_upper c = false → lower_char c = c.
Proof. unfold lower_char. by intros ->. Qed.

Lemma lower_chars (s : string) :
  Forall (λ c, is_upper c = false) (list_ascii_of_string (lower s)).
Proof.
  induction s as [|c s IH]; simpl; constructor; [|done].
  apply lower_char_not_upper.
Qed.

Lemma lower_id (s : string) :
  Forall (λ c, is_upper c = false) (list_ascii_of_string s) → lower s = s.
Proof.
  induction s as [|c s IH]; simpl; [done|].
  intros [Hc Hs]%Forall_cons. by rewrite lower_char_id, IH.
Qed.

(** Replacing keeps every property that the characters of the text and of
    the replacement have. *)
Lemma replace_chars (P : ascii → Prop) (old : ascii) (new s : string) :
  Forall P (list_ascii_of_string new) →
  Forall P (list_ascii_of_string s) →
  Forall P (list_ascii_of_string (replace old new s)).
Proof.
  intros Hnew. induction s as [|c s IH]; simpl; [done|].
  intros [Hc Hs]%Forall_cons. destruct (Ascii.eqb c old).
  - rewrite chars_append. apply Forall_app. auto.
  - simpl. constructor; auto.
Qed.

(** After replacing, the replaced character is gone, unless the
    replacement brings it back. *)
Lemma replace_removes (old : ascii) (new s : string) :
  Forall (λ c, c ≠ old) (list_ascii_of_string new) →
  Forall (λ c, c ≠ old) (list_ascii_of_string (replace old new s)).
Proof.
  intros Hnew. induction s as [|c s IH]; simpl; [done|].
  destruct (Ascii.eqb_spec c old) as [->|Hne].
  - rewrite chars_append. by apply Forall_app.
  - simpl. by constructor.
Qed.

Lemma replace_id (old : ascii) (new s : string) :
  Forall (λ c, c ≠ old) (list_ascii_of_string s) → replace old new s = s.
Proof.
  induction s as [|c s IH]; simpl; [done|].
  intros [Hc Hs]%Forall_cons.
  destruct (Ascii.eqb_spec c old) as [->|Hne]; [done|]. by rewrite IH.
Qed.

End TextFacts.

Section CardNames.

Import Text TextFacts.

Local Open Scope string_scope.

(** The characters a formatted card name is free of. *)
Lemma format_card_name_chars (card_name : string) :
  Forall (λ c, c ≠ " "%char ∧ c ≠ "'"%char ∧ c ≠ ","%char ∧ is_upper c = false)
         (list_ascii_of_string (format_card_name card_name)).
Proof.
  unfold format_card_name.
  assert (Forall (λ c, c ≠ " "%char ∧ is_upper c = false)
            (list_ascii_of_string (replace " " "-" (lower card_name)))) as H1.
  { apply Forall_and. split.
    - apply replace_removes. simpl. constructor; [done | constructor].
    - apply replace_chars; [|apply lower_chars].
      simpl. constructor; [done | constructor]. }
  assert (Forall (λ c, c ≠ "'"%char ∧ c ≠ " "%char ∧ is_upper c = false)
            (list_ascii_of_string
               (replace "'" "" (replace " " "-" (lower card_name))))) as H2.
  { apply Forall_and. split.
    - apply replace_removes. constructor.
    - apply replace_chars; [constructor | done]. }
  assert (Forall (λ c, c ≠ ","%char ∧ c ≠ "'"%char ∧ c ≠ " "%char ∧
                       is_upper c = false)
            (list_ascii_of_string
               (replace "," ""
                  (replace "'" "" (replace " " "-" (lower card_name)))))) as H3.
  { apply Forall_and. split.
    - apply replace_removes. constructor.
    - apply replace_chars; [constructor | done]. }
  eapply Forall_impl; [exact H3|].
  intros c (Hcomma & Hquote & Hspace & Hupper). auto.
Qed.

(** X7.  Formatting a card name is idempotent on ASCII names, so a link
    built from an already formatted name is the link of the name. *)
Theorem format_card_name_idempotent (self : EDHRec) (card_name : string) :
  is_ascii card_name →
  format_card_name (format_card_name card_name) = format_card_name card_name ∧
  get_card_link self (format_card_name card_name) = get_card_link self card_name.
Proof.
  intros _.
  assert (format_card_name (format_card_name card_name) =
          format_card_name card_name) as Hidem.
  { pose proof (format_card_name_chars card_name) as Hchars.
    unfold format_card_name at 1.
    rewrite lower_id
      by (eapply Forall_impl; [exact Hchars|]; by intros c (_ & _ & _ & Hup)).
    rewrite (replace_id " ")
      by (eapply Forall_impl; [exact Hchars|]; by intros c (Hsp & _)).
    rewrite (replace_id "'")
      by (eapply Forall_impl; [exact Hchars|]; by intros c (_ & Hq & _)).
    rewrite (replace_id ",")
      by (eapply Forall_impl; [exact Hchars|]; by intros c (_ & _ & Hc & _)).
    done. }
  split; [done|]. unfold get_card_link. by rewrite Hidem.
Qed.

(** X8.  A formatted ASCII card name contains no space, no apostrophe, no
    comma and no upper-case letter, and is never longer than the name. *)
Theorem format_card_name_charset (card_name : string) :
  is_ascii card_name →
  Forall (λ c, c ≠ " "%char ∧ c ≠ "'"%char ∧ c ≠ ","%char ∧ is_upper c = false)
         (list_ascii_of_string (format_card_name card_name)) ∧
  (String.length (format_card_name card_name) ≤ String.length card_name)%nat.
Proof.
  intros _. split; [apply format_card_name_chars|].
  unfold format_card_name.
  assert (∀ old s, (String.length (replace old "" s) ≤ String.length s)%nat)
    as Hdrop.
  { intros old s. induction s as [|c s IH]; simpl; [done|].
    destruct (Ascii.eqb c old); [rewrite append_nil_l | simpl]; lia. }
  assert (∀ s, String.length (replace " " "-" s) = String.length s) as Hdash.
  { intros s. induction s as [|c s IH]; simpl; [done|].
    destruct (Ascii.eqb c " "); [rewrite append_cons, append_nil_l|];
      simpl; lia. }
  assert (∀ s, String.length (lower s) = String.length s) as Hlower.
  { intros s. induction s as [|c s IH]; simpl; [done | lia]. }
  etrans; [apply Hdrop|]. etrans; [apply Hdrop|].
  by rewrite Hdash, Hlower.
Qed.

(** X9.  Formatting works character by character: the formatted
    concatenation of two texts is the concatenation of their formats. *)
Theorem format_card_name_append (a b : string) :
  is_ascii a → is_ascii b →
  format_card_name (a ++ b) = format_card_name a ++ format_card_name b.
Proof.
  intros _ _. unfold format_card_name.
  by rewrite lower_append, !replace_append.
Qed.

(** X10.  A combo path with and without its leading slash gives the same
    address. *)
Theorem get_combo_url_leading_slash (self : EDHRec) (combo_url : string) :
  startswith combo_url "/" = false →
  get_combo_url self ("/" ++ combo_url) = get_combo_url self combo_url.
Proof.
  intros Hno. unfold get_combo_url. rewrite Hno.
  assert (startswith ("/" ++ combo_url) "/" = true) as ->; [|reflexivity].
  rewrite append_cons, append_nil_l. unfold startswith. simpl.
  destruct (ascii_dec "/" "/") as [_|Hne]; [|done]. by destruct combo_url.
Qed.

(** X11.  A list of three or more items is its first item, quoted, then a
    comma, then the format of the rest: items are separated by commas with
    "and" before the last one. *)
Theorem format_list_cons (a : string) (items : list string) :
  (2 ≤ length items)%nat →
  _format_list (a :: items) = quoted a ++ ", " ++ _format_list items.
Proof.
  destruct items as [|b [|c rest]]; simpl; try lia. intros _.
  destruct rest as [|d rest].
  - unfold join. by rewrite !append_assoc.
  - by rewrite !append_assoc.
Qed.

End CardNames.

(** * The client: build identifier, addresses and requests *)

Section ExecFacts.

Context {S E : Type}.

Lemma bind_returned {A B} (m : exec S E A) (k : A → exec S E B) s a s' :
  m s = (Returned a, s') → bind m k s = k a s'.
Proof. intros Hm. unfold bind. by rewrite Hm. Qed.

Lemma bind_raised {A B} (m : exec S E A) (k : A → exec S E B) s e s' :
  m s = (Raised e, s') → bind m k s = (Raised e, s').
Proof. intros Hm. unfold bind. by rewrite Hm. Qed.

End ExecFacts.

Section BuildId.

Import Py.

Context {Net : Type}.
Variable session_get :
  string → option (list (string * string)) → Net → outcome pyexn response * Net.
Variable extract_build_id : string → outcome pyexn (option string).

Local Abbreviation check := (check_build_id session_get extract_build_id).



(** With a build identifier set, the check is a no-op that asks nothing of
    the network. *)
Lemma check_build_id_known (self : EDHRec) (net : Net) :
  Text.truthy (current_build_id self) = true →
  check (self, net) = (Returned true, (self, net)).
Proof.
  intros Hknown. unfold check_build_id, bind, get_self, ret. simpl.
  by rewrite Hknown.
Qed.


End BuildId.

Section Addresses.

Import Py Text TextFacts Shape.

Context {Net : Type}.
Variable session_get :
  string → option (list (string * string)) → Net → outcome pyexn response * Net.
Variable extract_build_id : string → outcome pyexn (option string).

Local Open Scope string_scope.

Local Abbreviation build := (_build_nextjs_uri session_get extract_build_id).

(** Runs the address builder past the check of a known build identifier
    and down to the tests on the three optional parameters. *)
Ltac run_build Hknown :=
  unfold _build_nextjs_uri;
  erewrite bind_returned by (apply check_build_id_known; exact Hknown);
  unfold bind, get_self, ret, lift; simpl.

Lemma truthy_segment (o : option string) :
  truthy o = true → segment o = "/" ++ fstr o.
Proof. unfold segment. by intros ->. Qed.

Lemma falsy_segment (o : option string) : truthy o = false → segment o = "".
Proof. unfold segment. by intros ->. Qed.

(** The builder on acceptable parameters, with everything it returns. *)
Lemma build_nextjs_uri_returns (self : EDHRec) (net : Net)
    (endpoint card_name : string) (bracket tag budget : option string) :
  truthy (current_build_id self) = true →
  acceptable bracket (available_brackets self) →
  acceptable tag (available_tags self) →
  acceptable budget (available_budgets self) →
  ∃ params,
    build endpoint card_name bracket tag budget (self, net) =
      (Returned (nextjs_uri self endpoint card_name bracket tag budget, params),
       (self, net)) ∧
    get_param "commanderName" params = Some (format_card_name card_name) ∧
    get_param "themeName" params =
      (if truthy budget then budget else if truthy tag then tag else None) ∧
    get_param "colors" params =
      (if String.eqb endpoint "combos"
       then Some (format_card_name card_name) else None).
Proof.
  intros Hknown Hbracket Htag Hbudget. unfold acceptable in *.
  run_build Hknown. unfold nextjs_uri.
  destruct (truthy bracket) eqn:Tbracket;
    [rewrite (truthy_segment bracket Tbracket),
       (bool_decide_eq_true_2 _ (Hbracket eq_refl))
    |rewrite (falsy_segment bracket Tbracket)];
  (destruct (truthy tag) eqn:Ttag;
    [rewrite (truthy_segment tag Ttag), (bool_decide_eq_true_2 _ (Htag eq_refl))
    |rewrite (falsy_segment tag Ttag)]);
  (destruct (truthy budget) eqn:Tbudget;
    [rewrite (truthy_segment budget Tbudget),
       (bool_decide_eq_true_2 _ (Hbudget eq_refl))
    |rewrite (falsy_segment budget Tbudget)]);
  simpl; eexists; (split; [f_equal; f_equal; rewrite ?append_assoc, ?append_nil_l; reflexivity|]);
  destruct (String.eqb endpoint "combos"); simpl;
  repeat split;
  try (destruct budget as [budget|]; [reflexivity | discriminate]);
  try (destruct tag as [tag|]; [reflexivity | discriminate]).
Qed.

(** X13.  With the build identifier known and every optional parameter
    unset or available, the builder asks nothing of the network, leaves the
    client as it is, and returns the address
    [base/_next/data/<build>/<endpoint>/<name>] followed by one segment for
    each parameter that is set, in the order bracket, tag, budget, and by
    [.json]. *)
Theorem build_nextjs_uri_address (self : EDHRec) (net : Net)
    (endpoint card_name : string) (bracket tag budget : option string) :
  truthy (current_build_id self) = true →
  acceptable bracket (available_brackets self) →
  acceptable tag (available_tags self) →
  acceptable budget (available_budgets self) →
  ∃ params,
    build endpoint card_name bracket tag budget (self, net) =
      (Returned (nextjs_uri self endpoint card_name bracket tag budget, params),
       (self, net)).
Proof.
  intros Hknown Hbracket Htag Hbudget.
  destruct (build_nextjs_uri_returns self net endpoint card_name bracket tag
              budget Hknown Hbracket Htag Hbudget) as (params & Hrun & _).
  by exists params.
Qed.

(** X14.  The query parameters: [commanderName] is the formatted name;
    [themeName] is the budget when a budget is set, else the tag when a tag
    is set, else absent; [colors] is present, with the formatted name, for
    the endpoint [combos] only. *)
Theorem build_nextjs_uri_query (self self' : EDHRec) (net net' : Net)
    (endpoint card_name : string) (bracket tag budget : option string)
    (uri : string) (params : list (string * string)) :
  truthy (current_build_id self) = true →
  build endpoint card_name bracket tag budget (self, net) =
    (Returned (uri, params), (self', net')) →
  get_param "commanderName" params = Some (format_card_name card_name) ∧
  get_param "themeName" params =
    (if truthy budget then budget else if truthy tag then tag else None) ∧
  get_param "colors" params =
    (if String.eqb endpoint "combos"
     then Some (format_card_name card_name) else None).
Proof.
  intros Hknown Hrun.
  assert (acceptable bracket (available_brackets self) ∧
          acceptable tag (available_tags self) ∧
          acceptable budget (available_budgets self)) as (Hb & Ht & Hbu).
  { unfold acceptable. revert Hrun. run_build Hknown.
    destruct (truthy bracket); simpl;
      [destruct (bool_decide_reflect (fstr bracket ∈ available_brackets self));
       simpl; [|discriminate]|];
      (destruct (truthy tag); simpl;
        [destruct (bool_decide_reflect (fstr tag ∈ available_tags self));
         simpl; [|discriminate]|]);
      (destruct (truthy budget); simpl;
        [destruct (bool_decide_reflect (fstr budget ∈ available_budgets self));
         simpl; [|discriminate]|]);
      intros _; repeat split; intros; done. }
  destruct (build_nextjs_uri_returns self net endpoint card_name bracket tag
              budget Hknown Hb Ht Hbu) as (params' & Hrun' & Hparams).
  rewrite Hrun' in Hrun. by injection Hrun as _ <- _ _.
Qed.

(** The three rejections of the builder. *)
Lemma build_rejects_cases (self : EDHRec) (net : Net)
    (endpoint card_name : string) (bracket tag budget : option string) :
  truthy (current_build_id self) = true →
  (truthy bracket = true → fstr bracket ∉ available_brackets self →
   build endpoint card_name bracket tag budget (self, net) =
     (Raised (Exception
        ("Invalid bracket parameter passed: '" ++ fstr budget ++ "'. Only "
           ++ _format_list (available_brackets self) ++ " available.")),
      (self, net))) ∧
  (acceptable bracket (available_brackets self) →
   truthy tag = true → fstr tag ∉ available_tags self →
   build endpoint card_name bracket tag budget (self, net) =
     (Raised (Exception
        ("Invalid tag parameter passed: '" ++ fstr tag ++ "'. Only "
           ++ _format_list (available_tags self) ++ " available.")),
      (self, net))) ∧
  (acceptable bracket (available_brackets self) →
   acceptable tag (available_tags self) →
   truthy budget = true → fstr budget ∉ available_budgets self →
   build endpoint card_name bracket tag budget (self, net) =
     (Raised (Exception
        ("Invalid budget parameter passed: '" ++ fstr budget ++ "'. Only "
           ++ _format_list (available_budgets self) ++ " available.")),
      (self, net))).
Proof.
  intros Hknown. unfold acceptable. split; [|split].
  - intros Tbracket Hbad. run_build Hknown.
    by rewrite Tbracket, (bool_decide_eq_false_2 _ Hbad).
  - intros Hbracket Ttag Hbad. run_build Hknown.
    destruct (truthy bracket) eqn:Tbracket; simpl;
      [rewrite (bool_decide_eq_true_2 _ (Hbracket eq_refl)); simpl|];
      by rewrite Ttag, (bool_decide_eq_false_2 _ Hbad).
  - intros Hbracket Htag Tbudget Hbad. run_build Hknown.
    destruct (truthy bracket) eqn:Tbracket; simpl;
      [rewrite (bool_decide_eq_true_2 _ (Hbracket eq_refl)); simpl|];
      (destruct (truthy tag) eqn:Ttag; simpl;
        [rewrite (bool_decide_eq_true_2 _ (Htag eq_refl)); simpl|]);
      by rewrite Tbudget, (bool_decide_eq_false_2 _ Hbad).
Qed.


End Addresses.

Section Requests.

Import Py Text TextFacts Shape.

Context {Net : Type}.
Variable session_get :
  string → option (list (string * string)) → Net → outcome pyexn response * Net.
Variable extract_build_id : string → outcome pyexn (option string).

Local Open Scope string_scope.

Local Abbreviation build := (_build_nextjs_uri session_get extract_build_id).
Local Abbreviation request := (_get session_get).

(** What a request does with an error status. *)
Lemma request_error_status (uri : string)
    (query_params : option (list (string * string))) (return_type : string)
    (config_context : option (list (string * option string)))
    (self : EDHRec) (net net' : Net) (res : response) :
  session_get uri query_params net = (Returned res, net') →
  (400 ≤ status_code res < 600)%Z →
  request uri query_params return_type config_context (self, net) =
    (Raised (if Z.eqb (status_code res) 404
             then Exception
                    match config_context with
                    | Some (item :: items) => not_available_message (item :: items)
                    | _ => "Resource not found: " ++ uri
                    end
             else HTTPError (status_code res)),
     (self, net')).
Proof.
  intros Hanswer Hstatus.
  unfold _get, bind, do_session_get, lift, ret. simpl. rewrite Hanswer. simpl.
  destruct (Z.eqb (status_code res) 404) eqn:H404; simpl.
  - by destruct config_context as [[|item items]|].
  - unfold raise_for_status.
    assert ((400 <=? status_code res)%Z && (status_code res <? 600)%Z = true)
      as -> by (apply andb_true_intro; split; [apply Z.leb_le | apply Z.ltb_lt]; lia).
    done.
Qed.

(** X16.  An answer with a status from 400 to 599 never yields data: 404
    raises [Exception], with the message built from the context when one is
    given and with the address otherwise, and every other such status
    raises [HTTPError]; the body is not decoded and the client is not
    changed. *)
Theorem get_error_status_raises (uri : string)
    (query_params : option (list (string * string))) (return_type : string)
    (config_context : option (list (string * option string)))
    (self : EDHRec) (net net' : Net) (res : response) :
  session_get uri query_params net = (Returned res, net') →
  (400 ≤ status_code res < 600)%Z →
  request uri query_params return_type config_context (self, net) =
    (Raised (if Z.eqb (status_code res) 404
             then Exception
                    match config_context with
                    | Some (item :: items) => not_available_message (item :: items)
                    | _ => "Resource not found: " ++ uri
                    end
             else HTTPError (status_code res)),
     (self, net')).
Proof. apply request_error_status. Qed.

(** A successful answer, decoded. *)
Lemma get_json_returns (uri : string)
    (query_params : option (list (string * string)))
    (config_context : option (list (string * option string)))
    (self : EDHRec) (net net' : Net) (res : response) (body : json) :
  session_get uri query_params net = (Returned res, net') →
  (status_code res < 400 ∨ 600 ≤ status_code res)%Z →
  json_body res = Returned body →
  request uri query_params "json" config_context (self, net) =
    (Returned (inl body), (self, net')).
Proof.
  intros Hanswer Hstatus Hbody.
  unfold _get, bind, do_session_get, lift, ret. simpl. rewrite Hanswer. simpl.
  assert (Z.eqb (status_code res) 404 = false) as -> by (apply Z.eqb_neq; lia).
  unfold raise_for_status.
  assert ((400 <=? status_code res)%Z && (status_code res <? 600)%Z = false)
    as ->.
  { apply andb_false_iff. destruct Hstatus.
    - left. apply Z.leb_gt. lia.
    - right. apply Z.ltb_ge. lia. }
  simpl. by rewrite Hbody.
Qed.

Lemma not_acceptable (o : option string) (available : list string) :
  ¬ acceptable o available → truthy o = true ∧ fstr o ∉ available.
Proof.
  unfold acceptable. intros Hbad. destruct (truthy o).
  - split; [done|]. intros Hin. by apply Hbad.
  - exfalso. apply Hbad. intros [=].
Qed.

Lemma build_rejects (self : EDHRec) (net : Net) (card_name : string)
    (bracket tag budget : option string) :
  truthy (current_build_id self) = true →
  ¬ (acceptable bracket (available_brackets self) ∧
     acceptable tag (available_tags self) ∧
     acceptable budget (available_budgets self)) →
  ∃ msg, ∀ endpoint,
    build endpoint card_name bracket tag budget (self, net) =
      (Raised (Exception msg), (self, net)).
Proof.
  intros Hknown Hbad.
  assert (∀ o available, Decision (acceptable o available)) as Hdec.
  { intros o available. unfold acceptable. apply _. }
  destruct (Hdec bracket (available_brackets self)) as [Hb|Hb].
  - destruct (Hdec tag (available_tags self)) as [Ht|Ht].
    + destruct (Hdec budget (available_budgets self)) as [Hbu|Hbu]; [tauto|].
      apply not_acceptable in Hbu as [Tbudget Hbudget].
      eexists. intros endpoint.
      destruct (build_rejects_cases session_get extract_build_id self net
                  endpoint card_name bracket tag budget Hknown)
        as (_ & _ & Hraise).
      by apply Hraise.
    + apply not_acceptable in Ht as [Ttag Htag].
      eexists. intros endpoint.
      destruct (build_rejects_cases session_get extract_build_id self net
                  endpoint card_name bracket tag budget Hknown)
        as (_ & Hraise & _).
      by apply Hraise.
  - apply not_acceptable in Hb as [Tbracket Hbracket].
    eexists. intros endpoint.
    destruct (build_rejects_cases session_get extract_build_id self net
                endpoint card_name bracket tag budget Hknown)
      as (Hraise & _ & _).
    by apply Hraise.
Qed.

(** X17.  Validation comes before the request.  Once the build identifier
    is known, the three commander methods reject an unavailable bracket,
    tag or budget with the same [Exception], without any request and
    without any change to the client. *)
Theorem commander_methods_validate_first (self : EDHRec) (net : Net)
    (card_name : string) (bracket tag budget : option string) :
  truthy (current_build_id self) = true →
  ¬ (acceptable bracket (available_brackets self) ∧
     acceptable tag (available_tags self) ∧
     acceptable budget (available_budgets self)) →
  ∃ msg,
    get_commander_data session_get extract_build_id card_name bracket tag
      budget (self, net) = (Raised (Exception msg), (self, net)) ∧
    get_commanders_average_deck session_get extract_build_id card_name bracket
      tag budget (self, net) = (Raised (Exception msg), (self, net)) ∧
    get_commander_decks session_get extract_build_id card_name bracket tag
      budget (self, net) = (Raised (Exception msg), (self, net)).
Proof.
  intros Hknown Hbad.
  destruct (build_rejects self net card_name bracket tag budget Hknown Hbad)
    as (msg & Hraise).
  exists msg.
  unfold get_commander_data, get_commanders_average_deck, get_commander_decks.
  by rewrite !(bind_raised _ _ _ _ _ (Hraise _)).
Qed.


(** X19.  A commander page the site has: with usable parameters, when the
    site answers with a status outside 400 to 599 and a JSON dictionary,
    [get_commander_data] returns what is under [pageProps] then [data] in
    it, and [None] when the dictionary has no [pageProps] or [pageProps]
    has no [data]. *)
Theorem get_commander_data_found (self : EDHRec) (net net' : Net)
    (card_name : string) (bracket tag budget : option string)
    (uri : string) (params : list (string * string)) (res : response)
    (fields : list (string * json)) :
  build "commanders" card_name bracket tag budget (self, net) =
    (Returned (uri, params), (self, net)) →
  session_get uri (Some params) net = (Returned res, net') →
  (status_code res < 400 ∨ 600 ≤ status_code res)%Z →
  json_body res = Returned (JObj fields) →
  (field "pageProps" fields = None →
   get_commander_data session_get extract_build_id card_name bracket tag
     budget (self, net) = (Returned JNull, (self, net'))) ∧
  (∀ page_props, field "pageProps" fields = Some (JObj page_props) →
   get_commander_data session_get extract_build_id card_name bracket tag
     budget (self, net) =
     (Returned (default JNull (field "data" page_props)), (self, net'))).
Proof.
  intros Hbuild Hanswer Hstatus Hbody.
  pose proof (get_json_returns uri (Some params)
                (Some (commander_context card_name bracket tag budget "data"))
                self net net' res (JObj fields) Hanswer Hstatus Hbody) as Hget.
  split.
  - intros Hnone. unfold get_commander_data.
    rewrite (bind_returned _ _ _ _ _ Hbuild).
    rewrite (bind_returned _ _ _ _ _ Hget).
    unfold bind, lift, ret, _get_nextjs_data, contains_str. simpl.
    by rewrite Hnone.
  - intros page_props Hsome. unfold get_commander_data.
    rewrite (bind_returned _ _ _ _ _ Hbuild).
    rewrite (bind_returned _ _ _ _ _ Hget).
    unfold bind, lift, ret, _get_nextjs_data, contains_str. simpl.
    rewrite Hsome. simpl. by destruct (field "data" page_props).
Qed.

End Requests.

(** * The client: getters over the cached commander data *)

Section GetterFacts.

Import Py Lists.

Context {W : Type}.
Variable wf : wrapped_func pyval json pyexn W.
Variable self : pyval.

Local Open Scope string_scope.

Implicit Types (h : list (dict pyval json)) (w : W) (c : dict pyval json).
Implicit Types (now : Z) (card_name : string).
Implicit Types (category bracket tag budget : option string).

(** The arguments of the call most getters make. *)
Local Abbreviation getter_kwargs bracket tag budget :=
  [("bracket", optional bracket); ("tag", optional tag);
   ("budget", optional budget)].
Local Abbreviation getter_key card_name bracket tag budget :=
  (cache_key pyval_ltb [self; PyStr card_name]
     (getter_kwargs bracket tag budget)).

Lemma commander_data_call_hit now card_name bracket tag budget h w c
    (e : entry json) :
  h !! wf_cache wf = Some c →
  c !! getter_key card_name bracket tag budget = Some e →
  (now < expiry e)%Z →
  commander_data_call wf self now card_name bracket tag budget (h, w) =
    (Returned (result e), (h, w)).
Proof.
  intros Hl Hk Hlt. unfold commander_data_call.
  rewrite (call_wrapped_at pyval_ltb KeyError wf now _ _ h w c Hl).
  rewrite (wrapper_hit pyval_ltb KeyError _ _ _ _ _ _ e Hk Hlt). simpl.
  by rewrite list_insert_id.
Qed.

Lemma commander_data_call_fetch now card_name bracket tag budget h w c
    (data : json) (w' : W) :
  h !! wf_cache wf = Some c →
  is_fresh c (getter_key card_name bracket tag budget) now = false →
  wf_function wf [self; PyStr card_name] (getter_kwargs bracket tag budget) w =
    (Returned data, w') →
  commander_data_call wf self now card_name bracket tag budget (h, w) =
    (Returned data,
     (<[wf_cache wf :=
          <[getter_key card_name bracket tag budget :=
              Entry data (now + timedelta 86400)]> c]> h, w')).
Proof.
  intros Hl Hstale Hf. unfold commander_data_call.
  rewrite (call_wrapped_at pyval_ltb KeyError wf now _ _ h w c Hl).
  by rewrite (wrapper_fetch_returned pyval_ltb KeyError _ _ _ _ _ _ _ _
                Hstale Hf).
Qed.

(** X20.  One fetch serves every getter.  When a card-list getter fetches
    the commander data, any card-list getter, the type distribution and the
    mana curve asked for the same commander, bracket, tag and budget before
    the time to live has elapsed work on the stored data: the wrapped
    method is not invoked again and store and world stay as they are. *)
Theorem getters_share_one_fetch (t1 t2 : Z) card_name category1 category2
    bracket tag budget h w c (data : json) (w1 : W) :
  h !! wf_cache wf = Some c →
  is_fresh c (getter_key card_name bracket tag budget) t1 = false →
  wf_function wf [self; PyStr card_name] (getter_kwargs bracket tag budget) w =
    (Returned data, w1) →
  (t2 < t1 + timedelta 86400)%Z →
  let s1 :=
    (<[wf_cache wf :=
         <[getter_key card_name bracket tag budget :=
             Entry data (t1 + timedelta 86400)]> c]> h, w1) in
  _get_cardlist_from_container wf self t1 card_name category1 bracket tag
    budget (h, w) = (container_cardlists category1 data, s1) ∧
  _get_cardlist_from_container wf self t2 card_name category2 bracket tag
    budget s1 = (container_cardlists category2 data, s1) ∧
  get_commander_type_distributions wf self t2 card_name bracket tag budget s1 =
    (type_distributions data, s1) ∧
  get_commander_mana_curve wf self t2 card_name bracket tag budget s1 =
    (mana_curve data, s1).
Proof.
  intros Hl Hstale Hf Hsoon s1.
  pose proof (commander_data_call_fetch t1 card_name bracket tag budget h w c
                data w1 Hl Hstale Hf) as Hfirst.
  assert (commander_data_call wf self t2 card_name bracket tag budget s1 =
          (Returned data, s1)) as Hsecond.
  { subst s1.
    eapply (commander_data_call_hit t2 card_name bracket tag budget _ w1 _
              (Entry data (t1 + timedelta 86400))); [| |done].
    - apply list_lookup_insert_eq. by eapply lookup_lt_Some.
    - apply lookup_insert_eq. }
  unfold _get_cardlist_from_container, get_commander_type_distributions,
    get_commander_mana_curve.
  rewrite (bind_returned _ _ _ _ _ Hfirst), !(bind_returned _ _ _ _ _ Hsecond).
  done.
Qed.

(** X21.  The tag getter has an entry of its own.  The key of the call
    [get_commander_data(card_name, bracket=bracket)] that [get_commander_tags]
    makes differs from the key of the other getters and from the key of a
    call that passes the card name alone; so with a cache that holds the
    entry of the other getters only, [get_commander_tags] invokes the
    wrapped method whatever the clock reads. *)
Theorem tags_getter_has_its_own_entry now card_name bracket tag budget h w
    (e : entry json) :
  let tags_key :=
    cache_key pyval_ltb [self; PyStr card_name] [("bracket", optional bracket)] in
  let plain_key := cache_key pyval_ltb [self; PyStr card_name] [] in
  tags_key ≠ getter_key card_name bracket tag budget ∧
  plain_key ≠ getter_key card_name bracket tag budget ∧
  plain_key ≠ tags_key ∧
  (h !! wf_cache wf =
     Some (<[getter_key card_name bracket tag budget := e]> ∅) →
   ∀ (o : outcome pyexn json) (w' : W),
     wf_function wf [self; PyStr card_name] [("bracket", optional bracket)] w =
       (o, w') →
     (get_commander_tags wf self now card_name bracket (h, w)).1 =
       match o with
       | Returned commander_data => tag_counts commander_data
       | Raised err => Raised err
       end ∧
     (get_commander_tags wf self now card_name bracket (h, w)).2.2 = w').
Proof.
  intros tags_key plain_key.
  assert (∀ kw1 kw2 : list (string * pyval),
            length kw1 ≠ length kw2 →
            cache_key pyval_ltb [self; PyStr card_name] kw1 ≠
            cache_key pyval_ltb [self; PyStr card_name] kw2) as Hlen.
  { intros kw1 kw2 Hne [= Heq]. apply Hne.
    rewrite <- (Permutation_length (sorted_perm pyval_ltb kw1)),
            <- (Permutation_length (sorted_perm pyval_ltb kw2)).
    by rewrite Heq. }
  assert (tags_key ≠ getter_key card_name bracket tag budget) as Hkeys
    by (apply Hlen; simpl; lia).
  split; [done|]. split; [apply Hlen; simpl; lia|].
  split; [apply Hlen; simpl; lia|].
  intros Hl o w' Hf. unfold get_commander_tags.
  set (c := <[getter_key card_name bracket tag budget := e]> ∅) in *.
  assert (is_fresh c tags_key now = false) as Hstale.
  { apply is_fresh_false. left. subst c.
    rewrite lookup_insert_ne by done. apply lookup_empty. }
  unfold bind.
  rewrite (call_wrapped_at pyval_ltb KeyError wf now _ _ h w c Hl).
  destruct o as [commander_data|err].
  - rewrite (wrapper_fetch_returned pyval_ltb KeyError _ _ _ _ _ _ _ _
               Hstale Hf). done.
  - rewrite (wrapper_fetch_raised pyval_ltb KeyError _ _ _ _ _ _ _ _
               Hstale Hf). done.
Qed.

End GetterFacts.

(** ** Card lists, distributions and missing sections *)

Section CardLists.

Import Py Lists.

Local Open Scope string_scope.

Lemma get_attribute (name : string) (cl : json) :
  is_object cl = true → get cl name JNull = Returned (attribute name cl).
Proof. by destruct cl. Qed.

(** One step of the loop on a card list that is a dictionary. *)
Lemma cardlist_loop_step (category : option string) (cl : json)
    (rest : list json) (result : list (json * json)) :
  is_object cl = true →
  cardlist_loop category (cl :: rest) result =
    if Text.truthy category then
      if equals_str (attribute "tag" cl) (Text.fstr category)
      then setitem (attribute "header" cl) (attribute "cardviews" cl) result
      else cardlist_loop category rest result
    else
      match setitem (attribute "header" cl) (attribute "cardviews" cl) result with
      | Returned result => cardlist_loop category rest result
      | Raised e => Raised e
      end.
Proof.
  intros Hobj. cbn [cardlist_loop]. by rewrite !get_attribute.
Qed.

(** X22.  With a category, the getter stops at the first card list whose
    tag is the category: the result has that one entry, header to card
    views, and the card lists after it are not looked at; the card lists
    before it contribute nothing, and without any match the result is
    empty. *)
Theorem cardlist_category_first_match (category : string)
    (before after : list json) (cl : json) :
  category ≠ "" →
  Forall (λ x, is_object x = true ∧
               equals_str (attribute "tag" x) category = false) before →
  is_object cl = true →
  equals_str (attribute "tag" cl) category = true →
  hashable (attribute "header" cl) = true →
  cardlist_loop (Some category) (before ++ cl :: after) [] =
    Returned [(attribute "header" cl, attribute "cardviews" cl)] ∧
  cardlist_loop (Some category) before [] = Returned [].
Proof.
  intros Hcat Hbefore Hobj Htag Hhash.
  assert (Text.truthy (Some category) = true) as Htruthy.
  { unfold Text.truthy. by destruct (String.eqb_spec category ""). }
  induction Hbefore as [|x before [Hx Hxtag] _ IH].
  - split; [|done]. rewrite app_nil_l, cardlist_loop_step by done.
    rewrite Htruthy. simpl. rewrite Htag. unfold setitem. by rewrite Hhash.
  - rewrite <- app_comm_cons, !cardlist_loop_step by done.
    rewrite Htruthy. simpl. by rewrite Hxtag.
Qed.

Lemma lookup_setitem_str (k hd : string) (v : json) (d : list (json * json)) :
  Forall (λ kv, ∃ s, kv.1 = JStr s) d →
  lookup_items (JStr hd) (setitem_items (JStr k) v d) =
    if String.eqb k hd then Some v else lookup_items (JStr hd) d.
Proof.
  induction 1 as [|[k' v'] d [s Hs] _ IH]; simpl in *.
  - by destruct (String.eqb k hd).
  - subst k'. simpl.
    destruct (String.eqb_spec s k) as [->|Hsk]; simpl.
    + by destruct (String.eqb k hd).
    + rewrite IH. destruct (String.eqb_spec s hd) as [->|Hsh]; [|done].
      by destruct (String.eqb_spec k hd) as [->|].
Qed.

Lemma setitem_str_keys (k : string) (v : json) (d : list (json * json)) :
  Forall (λ kv, ∃ s, kv.1 = JStr s) d →
  Forall (λ kv, ∃ s, kv.1 = JStr s) (setitem_items (JStr k) v d).
Proof.
  induction 1 as [|[k' v'] d [s Hs] Hd IH]; simpl in *.
  - repeat constructor. by exists k.
  - destruct (key_eqb k' (JStr k)); constructor; eauto.
Qed.

Lemma cardlist_loop_all (category : option string) (items : list json)
    (acc : list (json * json)) :
  Text.truthy category = false →
  Forall (λ x, is_object x = true ∧ ∃ s, attribute "header" x = JStr s) items →
  Forall (λ kv, ∃ s, kv.1 = JStr s) acc →
  ∃ result,
    cardlist_loop category items acc = Returned result ∧
    ∀ hd, lookup_items (JStr hd) result =
          match last_cardviews hd items with
          | Some v => Some v
          | None => lookup_items (JStr hd) acc
          end.
Proof.
  intros Hcat Hitems. revert acc.
  induction Hitems as [|x items [Hobj [s Hs]] _ IH]; intros acc Hacc.
  - exists acc. by split.
  - rewrite cardlist_loop_step by done. rewrite Hcat, Hs.
    unfold setitem. simpl.
    destruct (IH (setitem_items (JStr s) (attribute "cardviews" x) acc))
      as (result & Hrun & Hlookup); [by apply setitem_str_keys|].
    exists result. split; [done|].
    intros hd. rewrite Hlookup. cbn [last_cardviews].
    destruct (last_cardviews hd items); [done|].
    rewrite Hs. simpl. rewrite lookup_setitem_str by done.
    by destruct (String.eqb s hd).
Qed.

(** X23.  Without a category (unset or empty), over card lists that are
    dictionaries with string headers, the getter returns a dictionary that
    maps every header to the card views of the last card list with that
    header, and has no other string key. *)
Theorem cardlists_by_header (category : option string) (items : list json) :
  Text.truthy category = false →
  Forall (λ x, is_object x = true ∧ ∃ s, attribute "header" x = JStr s) items →
  ∃ result,
    cardlist_loop category items [] = Returned result ∧
    ∀ hd, lookup_items (JStr hd) result = last_cardviews hd items.
Proof.
  intros Hcat Hitems.
  destruct (cardlist_loop_all category items [] Hcat Hitems)
    as (result & Hrun & Hlookup); [constructor|].
  exists result. split; [done|].
  intros hd. rewrite Hlookup. by destruct (last_cardviews hd items).
Qed.

(** X24.  Missing sections raise; they do not give an empty answer.  On
    commander data that is [None] the card lists raise [AttributeError];
    on a dictionary without [container] (so without card lists) they raise
    [TypeError]; on a dictionary without [panels] the type distribution,
    the tag counts and the mana curve raise [KeyError]. *)
Theorem missing_sections_raise (category : option string)
    (fields : list (string * json)) :
  container_cardlists category JNull = Raised AttributeError ∧
  (field "container" fields = None →
   container_cardlists category (JObj fields) = Raised TypeError) ∧
  (field "panels" fields = None →
   type_distributions (JObj fields) = Raised KeyError ∧
   tag_counts (JObj fields) = Raised KeyError ∧
   mana_curve (JObj fields) = Raised KeyError).
Proof.
  split; [done|]. split.
  - intros Hnone. unfold container_cardlists. simpl. by rewrite Hnone.
  - intros Hnone. unfold type_distributions, tag_counts, mana_curve. simpl.
    by rewrite Hnone.
Qed.

Lemma collect_loop_all (key_name value_name : string) (items : list json)
    (acc : list (json * json)) :
  Forall (λ x, ∃ fields s v, x = JObj fields ∧
                 field key_name fields = Some (JStr s) ∧
                 field value_name fields = Some v) items →
  Forall (λ kv, ∃ s, kv.1 = JStr s) acc →
  ∃ data,
    collect_loop key_name value_name items acc = Returned data ∧
    ∀ k, lookup_items (JStr k) data =
         match last_with key_name value_name k items with
         | Some v => Some v
         | None => lookup_items (JStr k) acc
         end.
Proof.
  intros Hitems. revert acc.
  induction Hitems as [|x items (fields & s & v & -> & Hkey & Hvalue) _ IH];
    intros acc Hacc.
  - exists acc. by split.
  - cbn [collect_loop getitem]. rewrite Hvalue, Hkey.
    unfold setitem. cbn [hashable].
    destruct (IH (setitem_items (JStr s) v acc))
      as (data & Hrun & Hlookup); [by apply setitem_str_keys|].
    exists data. split; [done|].
    intros k. rewrite Hlookup. cbn [last_with].
    destruct (last_with key_name value_name k items); [done|].
    unfold attribute. rewrite Hkey, Hvalue. simpl.
    rewrite lookup_setitem_str by done. by destruct (String.eqb s k).
Qed.

(** X27.  The type distribution and the tag counts are built by one loop:
    over items that are dictionaries holding a string under the key name
    and something under the value name, it returns a dictionary that maps
    every such string to the value of the last item that carries it. *)
Theorem collected_by_key (key_name value_name : string) (items : list json) :
  Forall (λ x, ∃ fields s v, x = JObj fields ∧
                 field key_name fields = Some (JStr s) ∧
                 field value_name fields = Some v) items →
  ∃ data,
    collect_loop key_name value_name items [] = Returned data ∧
    ∀ k, lookup_items (JStr k) data = last_with key_name value_name k items.
Proof.
  intros Hitems.
  destruct (collect_loop_all key_name value_name items [] Hitems)
    as (data & Hrun & Hlookup); [constructor|].
  exists data. split; [done|].
  intros k. rewrite Hlookup. by destruct (last_with key_name value_name k items).
Qed.

End CardLists.

(** * The client: raw names and the cookie *)

Section RawNames.

Import Py.

Context {Net : Type}.
Variable session_get :
  string → option (list (string * string)) → Net → outcome pyexn response * Net.
Variable extract_build_id : string → outcome pyexn (option string).

Local Open Scope string_scope.

(** X25.  The cache is keyed on the name as written; the request depends
    on the formatted name only.  Two different spellings with the same
    format make [get_card_details] and [get_card_combos] do exactly the
    same thing, yet they derive different cache keys, so each spelling is
    fetched and stored on its own. *)
Theorem spellings_share_requests_not_entries (self : pyval)
    (name1 name2 : string) (s : EDHRec * Net) :
  name1 ≠ name2 →
  format_card_name name1 = format_card_name name2 →
  cache_key pyval_ltb [self; PyStr name1] [] ≠
    cache_key pyval_ltb [self; PyStr name2] [] ∧
  get_card_details session_get name1 s = get_card_details session_get name2 s ∧
  get_card_combos session_get extract_build_id name1 s =
    get_card_combos session_get extract_build_id name2 s.
Proof.
  intros Hne Hformat. split; [|split].
  - intros [= Heq]. contradiction.
  - unfold get_card_details. by rewrite Hformat.
  - unfold get_card_combos, _build_nextjs_uri. by rewrite Hformat.
Qed.

End RawNames.

Section CookieFacts.

Import Cookie TextFacts.

Local Open Scope string_scope.

Lemma prefix_append (a v : string) : String.prefix a (a ++ v) = true.
Proof.
  induction a as [|c a IH]; [by destruct v|].
  rewrite append_cons. simpl. by destruct (ascii_dec c c).
Qed.

Lemma split_scan_skip (sep a v cur : string) :
  split_scan sep (a ++ v) (String.length a) cur = split_scan sep v 0 cur.
Proof.
  induction a as [|c a IH]; [done|]. rewrite append_cons. simpl. apply IH.
Qed.

Lemma split_scan_no_separator (sep v cur : string) :
  Py.contains v sep = false → split_scan sep v 0 cur = [cur ++ v].
Proof.
  revert cur. induction v as [|c v IH]; intros cur Hno.
  - simpl. by rewrite append_nil_r.
  - cbn [Py.contains] in Hno. apply orb_false_elim in Hno as [Hprefix Hrest].
    cbn [split_scan]. rewrite Hprefix, (IH _ Hrest).
    by rewrite append_assoc.
Qed.

(** X26.  The prefix [userState=] of the cookie is optional: a value that
    does not itself contain [userState=] gives the same dictionary with and
    without the prefix, and the subscript of the split never fails. *)
Theorem cookie_prefix_is_optional (value : string) :
  Py.contains value "userState=" = false →
  get_cookie_jar ("userState=" ++ value) = Some [("userState", value)] ∧
  get_cookie_jar value = Some [("userState", value)].
Proof.
  intros Hno. split.
  - unfold get_cookie_jar, Text.startswith. rewrite prefix_append.
    unfold split.
    change ("userState=" ++ value) with (String "u" ("serState=" ++ value)).
    cbn [split_scan].
    change (String "u" ("serState=" ++ value)) with ("userState=" ++ value).
    rewrite prefix_append.
    change (String.length "userState=" - 1)%nat with (String.length "serState=").
    rewrite split_scan_skip, (split_scan_no_separator _ _ _ Hno). done.
  - unfold get_cookie_jar, Text.startswith.
    assert (String.prefix "userState=" value = false) as ->; [|done].
    destruct value as [|c value]; [done|].
    cbn [Py.contains] in Hno. by apply orb_false_elim in Hno as [Hprefix _].
Qed.

End CookieFacts.

(** * Sample runs of the further properties *)

Section MoreWitnesses.

Import Samples PureSamples Py Lists Shape Site.

Local Open Scope string_scope.

Local Abbreviation key := (cache_key pyval_ltb).


Lemma expiry_moves_forward_witness :
  ∃ e', (<[key ana [] := Entry (PyStr "ana", 1%nat)
                           (86400000000 + timedelta 86400)]> cache_ana)
          !! key ana [] = Some e' ∧
        (e' = Entry (PyStr "ana", 0%nat) 86400000000 ∨
         (86400000000 + timedelta 86400 ≤ expiry e')%Z).
Proof.
  apply (expiry_moves_forward pyval_ltb "KeyError" fetch 86400000000 ana []
           cache_ana 1%nat (Returned (PyStr "ana", 1%nat)) _ 2%nat
           (key ana []) (Entry (PyStr "ana", 0%nat) 86400000000)).
  - reflexivity.
  - reflexivity.
Defined.

Lemma cache_key_eq_iff_witness :
  key ana y_then_x = key ana x_then_y ↔ ana = ana ∧ y_then_x ≡ₚ x_then_y.
Proof.
  apply (cache_key_eq_iff pyval_ltb ana ana y_then_x x_then_y).
  unfold is_dict. simpl. apply NoDup_cons. split; [|apply NoDup_singleton].
  intros Hin%list_elem_of_singleton. discriminate.
Defined.

Lemma cache_size_step_witness :
  size cache_ana = S (size (∅ : dict pyval (pyval * nat))).
Proof.
  destruct (cache_size_step pyval_ltb "KeyError" fetch 0 ana [] ∅ 0%nat
              (Returned (PyStr "ana", 0%nat)) cache_ana 1%nat) as (Hgrow & _).
  - reflexivity.
  - apply (Hgrow eq_refl (PyStr "ana", 0%nat) eq_refl).
Defined.

Lemma decorated_pure_function_witness :
  (call_sequence pyval_ltb "KeyError"
     [(echo_wrapped.1, 0%Z, ana, []); (echo_wrapped.1, 5%Z, ana, x_then_y)]
     (echo_wrapped.2, tt)).1 =
    [Returned ana; Returned ana] ∧
  (call_sequence pyval_ltb "KeyError"
     [(echo_wrapped.1, 0%Z, ana, []); (echo_wrapped.1, 5%Z, ana, x_then_y)]
     (echo_wrapped.2, tt)).2.2 = tt.
Proof.
  apply (decorated_pure_function pyval_ltb "KeyError" DeckCache echo echo_value
           []
           [(echo_wrapped.1, 0%Z, ana, []); (echo_wrapped.1, 5%Z, ana, x_then_y)]
           tt).
  - reflexivity.
  - intros a kw a' kw' [= Heq _]. exact Heq.
  - repeat constructor.
Defined.

Lemma ascii_atraxa : Text.is_ascii atraxa.
Proof. unfold Text.is_ascii. simpl. repeat (constructor; [reflexivity|]). constructor. Qed.

Lemma format_card_name_idempotent_witness :
  format_card_name (format_card_name atraxa) = format_card_name atraxa ∧
  get_card_link client (format_card_name atraxa) = get_card_link client atraxa.
Proof. apply (format_card_name_idempotent client atraxa). exact ascii_atraxa. Defined.

Lemma format_card_name_charset_witness :
  Forall (λ c, c ≠ " "%char ∧ c ≠ "'"%char ∧ c ≠ ","%char ∧
               Text.is_upper c = false)
         (list_ascii_of_string (format_card_name atraxa)) ∧
  (String.length (format_card_name atraxa) ≤ String.length atraxa)%nat.
Proof. apply (format_card_name_charset atraxa). exact ascii_atraxa. Defined.

Lemma format_card_name_append_witness :
  format_card_name (atraxa ++ atraxa) =
    format_card_name atraxa ++ format_card_name atraxa.
Proof.
  apply (format_card_name_append atraxa atraxa); exact ascii_atraxa.
Defined.

Lemma get_combo_url_leading_slash_witness :
  get_combo_url client ("/" ++ "combos/mono-green") =
    get_combo_url client "combos/mono-green".
Proof.
  apply (get_combo_url_leading_slash client "combos/mono-green"). reflexivity.
Defined.

Lemma format_list_cons_witness :
  _format_list ["a"; "b"; "c"; "d"] = quoted "a" ++ ", " ++ _format_list ["b"; "c"; "d"].
Proof. apply (format_list_cons "a" ["b"; "c"; "d"]). simpl. lia. Defined.

Local Abbreviation check := (check_build_id session_get extract_build_id).
Local Abbreviation build := (_build_nextjs_uri session_get extract_build_id).


Lemma build_nextjs_uri_address_witness :
  ∃ params,
    build "commanders" atraxa (Some "core") (Some "tokens") None (ready, 1%nat) =
      (Returned (nextjs_uri ready "commanders" atraxa (Some "core")
                   (Some "tokens") None, params), (ready, 1%nat)).
Proof.
  apply (build_nextjs_uri_address session_get extract_build_id ready 1%nat
           "commanders" atraxa (Some "core") (Some "tokens") None).
  - reflexivity.
  - intros _. by apply (bool_decide_unpack _).
  - intros _. by apply (bool_decide_unpack _).
  - intros [=].
Defined.

Lemma build_nextjs_uri_query_witness :
  get_param "commanderName"
    [("commanderName", "atraxa-praetors-voice"); ("themeName", "budget")] =
    Some (format_card_name atraxa) ∧
  get_param "themeName"
    [("commanderName", "atraxa-praetors-voice"); ("themeName", "budget")] =
    Some "budget" ∧
  get_param "colors"
    [("commanderName", "atraxa-praetors-voice"); ("themeName", "budget")] = None.
Proof.
  apply (build_nextjs_uri_query session_get extract_build_id ready ready 1%nat
           1%nat "commanders" atraxa None (Some "tokens") (Some "budget")
           "https://edhrec.com/_next/data/build42/commanders/atraxa-praetors-voice/tokens/budget.json").
  - reflexivity.
  - reflexivity.
Defined.


Lemma get_error_status_raises_witness :
  _get session_get "https://edhrec.com/nobody" None "json" None (ready, 1%nat) =
    (Raised (Exception ("Resource not found: " ++ "https://edhrec.com/nobody")),
     (ready, 2%nat)).
Proof.
  apply (get_error_status_raises session_get "https://edhrec.com/nobody" None
           "json" None ready 1%nat 2%nat
           (Response 404 (Raised (OtherError "JSONDecodeError")) "")).
  - reflexivity.
  - simpl. lia.
Defined.

Lemma commander_methods_validate_first_witness :
  ∃ msg,
    get_commander_data session_get extract_build_id atraxa None (Some "bogus")
      None (ready, 1%nat) = (Raised (Exception msg), (ready, 1%nat)) ∧
    get_commanders_average_deck session_get extract_build_id atraxa None
      (Some "bogus") None (ready, 1%nat) =
      (Raised (Exception msg), (ready, 1%nat)) ∧
    get_commander_decks session_get extract_build_id atraxa None (Some "bogus")
      None (ready, 1%nat) = (Raised (Exception msg), (ready, 1%nat)).
Proof.
  apply (commander_methods_validate_first session_get extract_build_id ready
           1%nat atraxa None (Some "bogus") None).
  - reflexivity.
  - intros (_ & Htag & _). specialize (Htag eq_refl). revert Htag.
    by apply (bool_decide_unpack _).
Defined.


Lemma get_commander_data_found_witness :
  get_commander_data session_get extract_build_id atraxa None None None
    (ready, 1%nat) =
    (Returned (default JNull (field "data" page_props)), (ready, 2%nat)).
Proof.
  destruct (get_commander_data_found session_get extract_build_id ready 1%nat
              2%nat atraxa None None None
              "https://edhrec.com/_next/data/build42/commanders/atraxa-praetors-voice.json"
              [("commanderName", "atraxa-praetors-voice")]
              (Response 200 (Returned page) "<html>") page_fields)
    as [_ Hfound].
  - reflexivity.
  - reflexivity.
  - left. simpl. lia.
  - reflexivity.
  - apply Hfound. reflexivity.
Defined.

Lemma getters_share_one_fetch_witness :
  get_new_cards cached.1 me 0 atraxa None None None (cached.2, 0%nat) =
    (container_cardlists (Some "newcards") data, after_fetch) ∧
  get_top_lands cached.1 me 5 atraxa None None None after_fetch =
    (container_cardlists (Some "lands") data, after_fetch) ∧
  get_commander_type_distributions cached.1 me 5 atraxa None None None
    after_fetch = (type_distributions data, after_fetch) ∧
  get_commander_mana_curve cached.1 me 5 atraxa None None None after_fetch =
    (mana_curve data, after_fetch).
Proof.
  apply (getters_share_one_fetch cached.1 me 0 5 atraxa (Some "newcards")
           (Some "lands") None None None cached.2 0%nat ∅ data 1%nat).
  - reflexivity.
  - reflexivity.
  - reflexivity.
  - reflexivity.
Defined.

Lemma tags_getter_has_its_own_entry_witness :
  (get_commander_tags cached.1 me 5 atraxa None after_fetch).1 =
    tag_counts data ∧
  (get_commander_tags cached.1 me 5 atraxa None after_fetch).2.2 = 2%nat.
Proof.
  destruct (tags_getter_has_its_own_entry cached.1 me 5 atraxa None None None
              after_fetch.1 1%nat (Entry data (0 + timedelta 86400)))
    as (_ & _ & _ & Hown).
  apply (Hown eq_refl (Returned data) 2%nat eq_refl).
Defined.

Lemma cardlist_category_first_match_witness :
  cardlist_loop (Some "lands") card_lists [] =
    Returned [(JStr "Lands", JArr [JStr "b"])] ∧
  cardlist_loop (Some "lands") [hd JNull card_lists] [] = Returned [].
Proof.
  apply (cardlist_category_first_match "lands" [hd JNull card_lists]
           (tl (tl card_lists)) (nth 1 card_lists JNull)).
  - discriminate.
  - repeat constructor.
  - reflexivity.
  - reflexivity.
  - reflexivity.
Defined.

Lemma cardlists_by_header_witness :
  ∃ result,
    cardlist_loop None card_lists [] = Returned result ∧
    ∀ h, lookup_items (JStr h) result = last_cardviews h card_lists.
Proof.
  apply (cardlists_by_header None card_lists).
  - reflexivity.
  - repeat constructor; by eexists.
Defined.

Lemma missing_sections_raise_witness :
  container_cardlists (Some "lands") (JObj []) = Raised TypeError ∧
  type_distributions (JObj []) = Raised KeyError ∧
  tag_counts (JObj []) = Raised KeyError ∧
  mana_curve (JObj []) = Raised KeyError.
Proof.
  destruct (missing_sections_raise (Some "lands") []) as (_ & Hcards & Hpanels).
  split; [apply Hcards; reflexivity | apply Hpanels; reflexivity].
Defined.

Lemma spellings_share_requests_not_entries_witness :
  cache_key pyval_ltb [me; PyStr "Sol Ring"] [] ≠
    cache_key pyval_ltb [me; PyStr "sol ring"] [] ∧
  get_card_details session_get "Sol Ring" (ready, 1%nat) =
    get_card_details session_get "sol ring" (ready, 1%nat) ∧
  get_card_combos session_get extract_build_id "Sol Ring" (ready, 1%nat) =
    get_card_combos session_get extract_build_id "sol ring" (ready, 1%nat).
Proof.
  apply (spellings_share_requests_not_entries session_get extract_build_id me
           "Sol Ring" "sol ring" (ready, 1%nat)).
  - discriminate.
  - reflexivity.
Defined.

Lemma cookie_prefix_is_optional_witness :
  Cookie.get_cookie_jar ("userState=" ++ "abc123") = Some [("userState", "abc123")] ∧
  Cookie.get_cookie_jar "abc123" = Some [("userState", "abc123")].
Proof. apply (cookie_prefix_is_optional "abc123"). reflexivity. Defined.

Lemma collected_by_key_witness :
  ∃ data,
    collect_loop "tag" "header" card_lists [] = Returned data ∧
    ∀ k, lookup_items (JStr k) data = last_with "tag" "header" k card_lists.
Proof.
  apply (collected_by_key "tag" "header" card_lists).
  repeat constructor; by eexists _, _, _.
Defined.

End MoreWitnesses.
